(** * RTK campaign execution engine: shallow embedding of [main.js]

    The embedding follows [src/rtx_innovations_electron/src/main.js]:
    credential normalisation, the template renderer, the raw message
    builder, the sheet status writer, the campaign runner and the
    one-time scheduler.

    Conventions.
    - A JavaScript string is a [list ascii]: a sequence of code units,
      read as U+0000 to U+00FF.  Code units above U+00FF are outside the
      model.
    - A JavaScript value that the code coerces or tests for truthiness is
      a [value]; numbers are the integers.
    - Calls that leave the process (provider API, file system, random
      numbers, timers) take their outcome from an explicit oracle and
      leave an event in a trace. *)

From Stdlib Require Import List Ascii String ZArith Lia Bool DecimalString.
From stdpp Require Import gmap strings.
Import ListNotations.

Local Open Scope char_scope.
Local Open Scope list_scope.

(* ================================================================== *)
(** * Part I: definitions                                              *)
(* ================================================================== *)

(** ** JavaScript strings and values *)

Module Js.

Definition str := list ascii.

(** String literals of the source are written [lit "..."]. *)
Definition lit (s : string) : str := list_ascii_of_string s.

Definition dquote : ascii := "034".
Definition CR : ascii := "013".
Definition LF : ascii := "010".
Definition CRLF : str := [CR; LF].

Fixpoint str_eqb (a b : str) : bool :=
  match a, b with
  | [], [] => true
  | x :: a', y :: b' => Ascii.eqb x y && str_eqb a' b'
  | _, _ => false
  end.

(** [s.startsWith(p)]. *)
Fixpoint startsWith (p s : str) : bool :=
  match p, s with
  | [], _ => true
  | _ :: _, [] => false
  | x :: p', y :: s' => Ascii.eqb x y && startsWith p' s'
  end.

(** [s.includes(p)]. *)
Fixpoint includes (p s : str) : bool :=
  startsWith p s ||
  match s with
  | [] => false
  | _ :: s' => includes p s'
  end.

(** Number of positions of [s] at which [p] occurs. *)
Fixpoint occurrences (p s : str) : nat :=
  match s with
  | [] => 0
  | _ :: s' => (if startsWith p s then 1 else 0) + occurrences p s'
  end.

(** White space and line terminators removed by [trim], below U+0100:
    TAB, LF, VT, FF, CR, SP and NBSP. *)
Definition is_space (c : ascii) : bool :=
  match nat_of_ascii c with
  | 9 | 10 | 11 | 12 | 13 | 32 | 160 => true
  | _ => false
  end.

Fixpoint trimStart (s : str) : str :=
  match s with
  | [] => []
  | c :: s' => if is_space c then trimStart s' else s
  end.

Definition trimEnd (s : str) : str := rev (trimStart (rev s)).

Definition trim (s : str) : str := trimEnd (trimStart s).

(** [toLowerCase] on one code unit below U+0100: A-Z, and U+00C0 to
    U+00DE except the multiplication sign U+00D7. *)
Definition lower_char (c : ascii) : ascii :=
  let n := nat_of_ascii c in
  if ((65 <=? n) && (n <=? 90))%nat then ascii_of_nat (n + 32)
  else if ((192 <=? n) && (n <=? 222) && negb (n =? 215))%nat
       then ascii_of_nat (n + 32)
  else c.

Definition toLowerCase (s : str) : str := map lower_char s.

Inductive value :=
| VUndefined
| VNull
| VBool (b : bool)
| VNum (n : Z)
| VStr (s : str).

(** [String(v)].  A number is an integer and is printed in decimal, as
    [String] prints an integer of magnitude below [10^21]; above that
    JavaScript switches to exponent notation, which is not modelled. *)
Definition toStr (v : value) : str :=
  match v with
  | VUndefined => lit "undefined"
  | VNull => lit "null"
  | VBool true => lit "true"
  | VBool false => lit "false"
  | VNum n => lit (NilZero.string_of_int (Z.to_int n))
  | VStr s => s
  end.

(** Truthiness, as tested by [if (v)], [!v] and [v || d]. *)
Definition truthy (v : value) : bool :=
  match v with
  | VUndefined | VNull => false
  | VBool b => b
  | VNum n => negb (n =? 0)%Z
  | VStr s => match s with [] => false | _ => true end
  end.

(** [v != null]. *)
Definition not_nullish (v : value) : bool :=
  match v with
  | VUndefined | VNull => false
  | _ => true
  end.

(** [a[i]]: reading past the end yields [undefined]. *)
Definition index (a : list value) (i : nat) : value :=
  match nth_error a i with
  | Some v => v
  | None => VUndefined
  end.

(** [a.findIndex(f)], with [None] for [-1]. *)
Fixpoint findIndex {A} (f : A -> bool) (a : list A) : option nat :=
  match a with
  | [] => None
  | x :: a' => if f x then Some 0%nat else option_map S (findIndex f a')
  end.

(** The result of a call that may throw [new Error(message)]. *)
Inductive outcome (A : Type) :=
| Returned (a : A)
| Thrown (message : str).
Arguments Returned {A} a.
Arguments Thrown {A} message.

End Js.

(** ** Template renderer: [renderWithRow] *)

Module Render.
Import Js.

(** The class [[-/\\^$*+?.()|[\]{}]] of [key.replace(..., '\\$&')]. *)
Definition is_escaped (c : ascii) : bool :=
  match c with
  | "-" | "/" | "\" | "^" | "$" | "*" | "+" | "?" | "."
  | "(" | ")" | "|" | "[" | "]" | "{" | "}" => true
  | _ => false
  end.

(** [key.replace(/[-/\\^$*+?.()|[\]{}]/g, '\\$&')]: every character of
    the class is preceded by a backslash. *)
Definition escapeRegExp (key : str) : str :=
  flat_map (fun c => if is_escaped c then ["\"; c] else [c]) key.

(** The pattern source [`\\(\\(${escaped}\\)\\)`]. *)
Definition pattern_source (key : str) : str :=
  lit "\(\(" ++ escapeRegExp key ++ lit "\)\)".

(** The text [((key))]. *)
Definition placeholder (key : str) : str :=
  lit "((" ++ key ++ lit "))".

(** [SyntaxCharacter] of the ECMAScript pattern grammar. *)
Definition is_syntax_char (c : ascii) : bool :=
  match c with
  | "^" | "$" | "\" | "." | "*" | "+" | "?"
  | "(" | ")" | "[" | "]" | "{" | "}" | "|" => true
  | _ => false
  end.

(** [new RegExp(src, 'g')] on the literal fragment of the pattern
    grammar: a pattern made of pattern characters (anything but a syntax
    character) and identity escapes of a syntax character, [/] or [-]
    denotes exactly one text.  A source with an unescaped syntax
    character, or with any other escape, is outside the fragment
    ([None]). *)
Fixpoint regexp_literal (src : str) : option str :=
  match src with
  | [] => Some []
  | "\" :: rest =>
      match rest with
      | c :: rest' =>
          if is_syntax_char c || Ascii.eqb c "/" || Ascii.eqb c "-"
          then option_map (cons c) (regexp_literal rest')
          else None
      | [] => None
      end
  | c :: rest =>
      if is_syntax_char c then None
      else option_map (cons c) (regexp_literal rest)
  end.

(** [GetSubstitution] for a match without capture groups: in the
    replacement text [$$] is a dollar, [$&] the matched text, [$`] the
    text before the match and [$'] the text after it; any other dollar
    stands for itself. *)
Fixpoint getSubstitution (repl matched before after : str) : str :=
  match repl with
  | [] => []
  | "$" :: rest =>
      match rest with
      | "$" :: rest' => "$" :: getSubstitution rest' matched before after
      | "&" :: rest' => matched ++ getSubstitution rest' matched before after
      | "`" :: rest' => before ++ getSubstitution rest' matched before after
      | "'" :: rest' => after ++ getSubstitution rest' matched before after
      | _ => "$" :: getSubstitution rest matched before after
      end
  | c :: rest => c :: getSubstitution rest matched before after
  end.

(** [s.replace(re, repl)] for a global regular expression that denotes
    the non-empty text [pat]: matches are taken left to right and do not
    overlap.  [seen] is the text already passed, in reverse, and [skip]
    counts the characters of the current match still to pass. *)
Fixpoint replace_from (pat repl : str) (seen : str) (skip : nat) (s : str)
  : str :=
  match s with
  | [] => []
  | c :: s' =>
      match skip with
      | S k => replace_from pat repl (c :: seen) k s'
      | O =>
          if startsWith pat s
          then getSubstitution repl pat (rev seen) (skipn (length pat) s)
               ++ replace_from pat repl (c :: seen) (length pat - 1) s'
          else c :: replace_from pat repl (c :: seen) 0 s'
      end
  end.

Definition replaceAll (pat repl s : str) : str :=
  replace_from pat repl [] 0 s.

(** [signature.replace(/<[^>]+>/g, '')]: a [<] followed by one or more
    characters other than [>] and then a [>] is removed. *)
Definition tag_opens (s : str) : bool :=
  match s with
  | [] => false
  | c :: _ => negb (Ascii.eqb c ">") && existsb (Ascii.eqb ">") s
  end.

Fixpoint strip_from (in_tag : bool) (s : str) : str :=
  match s with
  | [] => []
  | c :: s' =>
      if in_tag then strip_from (negb (Ascii.eqb c ">")) s'
      else if Ascii.eqb c "<" && tag_opens s' then strip_from true s'
      else c :: strip_from false s'
  end.

Definition stripTags (s : str) : str := strip_from false s.

(** The value substituted for column [i]:
    [row[i] != null ? String(row[i]) : '']. *)
Definition cell_text (row : list value) (i : nat) : str :=
  if not_nullish (index row i) then toStr (index row i) else [].

(** [String(h).trim()]. *)
Definition header_key (h : value) : str := trim (toStr h).

(** The body of [headers.forEach((h, i) => ...)], from index [i] on. *)
Fixpoint render_headers (headers : list value) (i : nat) (row : list value)
  (out : str) : option str :=
  match headers with
  | [] => Some out
  | h :: headers' =>
      match regexp_literal (pattern_source (header_key h)) with
      | Some pat =>
          render_headers headers' (S i) row (replaceAll pat (cell_text row i) out)
      | None => None
      end
  end.

(** [renderWithRow(content, headers, row, signature)]; [signature] is
    [None] when the argument is absent.  The result is [None] when a
    pattern source falls outside the literal fragment modelled by
    [regexp_literal]. *)
Definition renderWithRow (content : str) (headers row : list value)
  (signature : option str) : option str :=
  match render_headers headers 0 row content with
  | Some out =>
      Some (match signature with
            | Some (c :: sig) => out ++ [LF; LF] ++ stripTags (c :: sig)
            | _ => out
            end)
  | None => None
  end.

(** A template as the spec reads it: literal text and placeholders. *)
Inductive token :=
| Lit (s : str)
| Hole (key : str).

Definition token_text (t : token) : str :=
  match t with
  | Lit s => s
  | Hole k => placeholder k
  end.

Definition template_text (ts : list token) : str :=
  flat_map token_text ts.

(** The text for placeholder [key]: the cell of the first header, from
    index [i] on, whose trimmed text is [key]. *)
Fixpoint lookup_key (headers : list value) (i : nat) (row : list value)
  (key : str) : option str :=
  match headers with
  | [] => None
  | h :: headers' =>
      if str_eqb (header_key h) key then Some (cell_text row i)
      else lookup_key headers' (S i) row key
  end.

(** A placeholder filled by the first header of that name, or left as
    it is when no header has that name. *)
Definition fill_token_from (headers : list value) (i : nat)
  (row : list value) (t : token) : token :=
  match t with
  | Lit s => Lit s
  | Hole k =>
      match lookup_key headers i row k with
      | Some v => Lit v
      | None => Hole k
      end
  end.

Definition fill_token (headers row : list value) (t : token) : token :=
  fill_token_from headers 0 row t.

(** The rendering of a template as the spec describes it. *)
Definition filled_text (headers row : list value) (ts : list token) : str :=
  template_text (map (fill_token headers row) ts).

(** One header applied to a template. *)
Definition subst_token (key v : str) (t : token) : token :=
  match t with
  | Lit s => Lit s
  | Hole k => if str_eqb key k then Lit v else Hole k
  end.

Definition no_char (c : ascii) (s : str) : Prop := ~ In c s.

Definition paren_free (s : str) : Prop := no_char "(" s /\ no_char ")" s.

Definition token_paren_free (t : token) : Prop :=
  match t with
  | Lit s => paren_free s
  | Hole k => paren_free k
  end.

(** A cell text that the renderer inserts as it is: it brings no
    parenthesis and no replacement pattern. *)
Definition plain_text (v : str) : Prop := paren_free v /\ no_char "$" v.

(** [pat] matches at no position of [a] in the text [a ++ rest]. *)
Fixpoint no_match_in (pat a rest : str) : Prop :=
  match a with
  | [] => True
  | _ :: a' => startsWith pat (a ++ rest) = false /\ no_match_in pat a' rest
  end.

(** The renderer in the spec's words: for each header [h] at index [i],
    every literal occurrence of [((h))], [h] being the header text as it
    is, is replaced with the text of the row's cell [i]. *)
Fixpoint spec_replace (pat v : str) (skip : nat) (s : str) : str :=
  match s with
  | [] => []
  | c :: s' =>
      match skip with
      | S k => spec_replace pat v k s'
      | O =>
          if startsWith pat s then v ++ spec_replace pat v (length pat - 1) s'
          else c :: spec_replace pat v 0 s'
      end
  end.

Fixpoint spec_render_from (headers : list value) (i : nat)
  (row : list value) (out : str) : str :=
  match headers with
  | [] => out
  | h :: headers' =>
      spec_render_from headers' (S i) row
        (spec_replace (placeholder (toStr h)) (cell_text row i) 0 out)
  end.

Definition spec_render (content : str) (headers row : list value) : str :=
  spec_render_from headers 0 row content.

(** The same rendering with the header text trimmed: for each header
    [h] at index [i], in index order, every literal occurrence of
    [((k))], [k] being the text of [h] without leading and trailing
    white space, taken left to right and without overlap, is replaced
    with the text of the row's cell [i]. *)
Fixpoint trimmed_render_from (headers : list value) (i : nat)
  (row : list value) (out : str) : str :=
  match headers with
  | [] => out
  | h :: headers' =>
      trimmed_render_from headers' (S i) row
        (spec_replace (placeholder (header_key h)) (cell_text row i) 0 out)
  end.

Definition trimmed_render (content : str) (headers row : list value) : str :=
  trimmed_render_from headers 0 row content.

End Render.

(** ** Session manager: [normalizeCredentials] *)

Module Credentials.
Import Js.

(** A credential object.  [redirect_uris] is [None] when the field is
    not an array, and otherwise the elements of the array. *)
Record creds := {
  client_id : value;
  client_secret : value;
  redirect_uris : option (list value)
}.

(** A raw credential document: the members [web] and [installed]
    ([None] when absent or falsy) and the document's own fields, read
    when it is flat. *)
Record document := {
  web : option creds;
  installed : option creds;
  flat : creds
}.

Record normalized := {
  n_client_id : value;
  n_client_secret : value;
  redirect_uri : option str;
  fixed : bool;
  host : option str
}.

Definition is_localhost (u : str) : bool :=
  startsWith (lit "http://localhost") u.

(** The TypeError of [u.startsWith(...)] when [u] is not a string. *)
Definition startsWith_type_error (u : value) : str :=
  match u with
  | VUndefined =>
      lit "Cannot read properties of undefined (reading 'startsWith')"
  | VNull => lit "Cannot read properties of null (reading 'startsWith')"
  | _ => lit "u.startsWith is not a function"
  end.

(** [uris.find(u => u.startsWith('http://localhost'))]: the elements are
    tested in order up to the first match, and the test throws on an
    element that is not a string. *)
Fixpoint find_localhost (uris : list value) : outcome (option str) :=
  match uris with
  | [] => Returned None
  | VStr u :: rest =>
      if is_localhost u then Returned (Some u) else find_localhost rest
  | u :: _ => Thrown (startsWith_type_error u)
  end.

(** [uris.some(u => u.startsWith('http://localhost'))]. *)
Fixpoint some_localhost (uris : list value) : outcome bool :=
  match uris with
  | [] => Returned false
  | VStr u :: rest =>
      if is_localhost u then Returned true else some_localhost rest
  | u :: _ => Thrown (startsWith_type_error u)
  end.

(** [normalizeCredentials(raw)]; [None] is a null or undefined [raw]. *)
Definition normalizeCredentials (raw : option document) : outcome normalized :=
  match raw with
  | None => Thrown (lit "Invalid credentials file format")
  | Some doc =>
      match web doc with
      | Some w =>
          if negb (truthy (client_id w)) || negb (truthy (client_secret w))
          then Thrown (lit "Missing client_id/client_secret")
          else
            let exact :=
              match redirect_uris w with
              | Some uris => find_localhost uris
              | None => Returned None
              end in
            match exact with
            | Thrown e => Thrown e
            | Returned None =>
                Returned {| n_client_id := client_id w;
                            n_client_secret := client_secret w;
                            redirect_uri := None; fixed := false;
                            host := None |}
            | Returned (Some u) =>
                Returned {| n_client_id := client_id w;
                            n_client_secret := client_secret w;
                            redirect_uri := Some u; fixed := true;
                            host := None |}
            end
      | None =>
          let c := match installed doc with Some i => i | None => flat doc end in
          if negb (truthy (client_id c)) || negb (truthy (client_secret c))
          then Thrown (lit "Missing client_id/client_secret in credentials")
          else
            let hasLocalhost :=
              match redirect_uris c with
              | Some uris => some_localhost uris
              | None => Returned false
              end in
            match hasLocalhost with
            | Thrown e => Thrown e
            | Returned hasLocalhost =>
                Returned {| n_client_id := client_id c;
                            n_client_secret := client_secret c;
                            redirect_uri := None; fixed := false;
                            host := Some (if hasLocalhost then lit "localhost"
                                          else lit "127.0.0.1") |}
            end
      end
  end.

(** The three accepted shapes of a document, and the credential object
    each one designates. *)
Inductive shape := WebShape | InstalledShape | FlatShape.

Definition has_shape (doc : document) (sh : shape) (c : creds) : Prop :=
  match sh with
  | WebShape => web doc = Some c
  | InstalledShape => web doc = None /\ installed doc = Some c
  | FlatShape => web doc = None /\ installed doc = None /\ flat doc = c
  end.

(** A field is carried when it is present and not empty. *)
Definition carries (v : value) : Prop := truthy v = true.

(** A redirect URI that is a string and does not start with
    [http://localhost]. *)
Definition other_string (v : value) : Prop :=
  exists s, v = VStr s /\ is_localhost s = false.

(** No element that is not a string comes before the first redirect URI
    that starts with [http://localhost]. *)
Fixpoint strings_until_localhost (uris : list value) : Prop :=
  match uris with
  | [] => True
  | VStr u :: rest => is_localhost u = true \/ strings_until_localhost rest
  | _ :: _ => False
  end.

Definition uris_readable (c : creds) : Prop :=
  match redirect_uris c with
  | Some uris => strings_until_localhost uris
  | None => True
  end.

(** The error kind [InvalidCredentials]: any error thrown by
    [normalizeCredentials]. *)
Definition InvalidCredentials {A} (r : outcome A) : Prop :=
  match r with
  | Thrown _ => True
  | Returned _ => False
  end.

End Credentials.

(** ** Message builder: [buildRawEmail] and [toBase64Url] *)

Module Message.
Import Js.

(** The collaborators of [buildRawEmail] outside the repository:
    [fs.readFileSync] ([None] when it throws), [path.basename] and
    [mime.lookup] ([None] for [false]). *)
Record platform := {
  readFileSync : str -> option (list Byte.byte);
  basename : str -> str;
  mime_lookup : str -> option str
}.

Definition base64_alphabet : str :=
  lit "ABCDEFGHIJKLMNOPQRSTUVWXYZabcdefghijklmnopqrstuvwxyz0123456789+/".

Definition base64_digit (n : N) : ascii :=
  nth (N.to_nat n) base64_alphabet "A".

(** [buffer.toString('base64')]: three bytes give four digits, and the
    last group is padded with [=]. *)
Fixpoint base64_of (d : list N) : str :=
  match d with
  | [] => []
  | a :: d1 =>
      match d1 with
      | [] =>
          [base64_digit (N.shiftr a 2);
           base64_digit (N.shiftl (N.land a 3) 4); "="; "="]
      | b :: d2 =>
          match d2 with
          | [] =>
              [base64_digit (N.shiftr a 2);
               base64_digit (N.lor (N.shiftl (N.land a 3) 4) (N.shiftr b 4));
               base64_digit (N.shiftl (N.land b 15) 2); "="]
          | c :: d3 =>
              [base64_digit (N.shiftr a 2);
               base64_digit (N.lor (N.shiftl (N.land a 3) 4) (N.shiftr b 4));
               base64_digit (N.lor (N.shiftl (N.land b 15) 2) (N.shiftr c 6));
               base64_digit (N.land c 63)] ++ base64_of d3
          end
      end
  end.

Definition base64 (d : list Byte.byte) : str :=
  base64_of (map Byte.to_N d).

(** The characters of a base64 text. *)
Definition base64_char (c : ascii) : Prop :=
  In c base64_alphabet \/ c = "=".

(** Line terminators, which [.] does not match. *)
Definition is_line_terminator (c : ascii) : bool :=
  Ascii.eqb c CR || Ascii.eqb c LF.

(** [b64.replace(/.{1,76}/g, m => m + '\r\n')]: every maximal run of at
    most 76 characters other than line terminators is followed by CRLF.
    [n] is the length of the run being read. *)
Fixpoint wrap_from (n : nat) (s : str) : str :=
  match s with
  | [] => match n with O => [] | S _ => CRLF end
  | c :: s' =>
      if is_line_terminator c
      then match n with O => [] | S _ => CRLF end ++ c :: wrap_from 0 s'
      else if (n =? 76)%nat then CRLF ++ c :: wrap_from 1 s'
      else c :: wrap_from (S n) s'
  end.

Definition wrap76 (b64 : str) : str := wrap_from 0 b64.

(** [l.join(sep)]. *)
Fixpoint join (sep : str) (l : list str) : str :=
  match l with
  | [] => []
  | [x] => x
  | x :: l' => x ++ sep ++ join sep l'
  end.

(** [text || ''], coerced by the concatenation. *)
Definition text_or_empty (text : value) : str :=
  if truthy text then toStr text else [].

(** The part written for attachment path [p] when it can be read. *)
Definition attachment_part (pf : platform) (boundary p : str)
  (data : list Byte.byte) : str :=
  let filename := basename pf p in
  let ctype :=
    match mime_lookup pf filename with
    | Some t => t
    | None => lit "application/octet-stream"
    end in
  lit "--" ++ boundary ++ CRLF
  ++ lit "Content-Type: " ++ ctype ++ lit "; name=" ++ [dquote] ++ filename
     ++ [dquote] ++ CRLF
  ++ lit "Content-Transfer-Encoding: base64" ++ CRLF
  ++ lit "Content-Disposition: attachment; filename=" ++ [dquote] ++ filename
     ++ [dquote] ++ CRLF ++ CRLF
  ++ wrap76 (base64 data) ++ CRLF.

(** The loop [for (const p of attachments)]: the body text so far and
    the paths logged as 'Attachment read failed'. *)
Fixpoint attach_all (pf : platform) (boundary : str) (attachments : list str)
  (body : str) (failed : list str) : str * list str :=
  match attachments with
  | [] => (body, failed)
  | p :: rest =>
      match readFileSync pf p with
      | Some data =>
          attach_all pf boundary rest
            (body ++ attachment_part pf boundary p data) failed
      | None => attach_all pf boundary rest body (failed ++ [p])
      end
  end.

Record email := {
  from : value;
  to : value;
  subject : value;
  text : value;
  attachments : list str
}.

(** [buildRawEmail({ from, to, subject, text, html, attachments })].
    [rnd] is the text [Math.random().toString(36).slice(2)].  The result
    is the message and the attachment paths logged as unreadable. *)
Definition buildRawEmail (pf : platform) (rnd : str) (m : email)
  : str * list str :=
  let boundary := lit "mixed_" ++ rnd in
  let headers :=
    (if truthy (from m) then [lit "From: " ++ toStr (from m)] else [])
    ++ [lit "To: " ++ toStr (to m)]
    ++ [lit "Subject: " ++ toStr (subject m)]
    ++ [lit "MIME-Version: 1.0"] in
  match attachments m with
  | _ :: _ =>
      let headers :=
        headers ++ [lit "Content-Type: multipart/mixed; boundary="
                    ++ [dquote] ++ boundary ++ [dquote]] in
      let body :=
        lit "--" ++ boundary ++ CRLF
        ++ lit "Content-Type: text/plain; charset=" ++ [dquote]
           ++ lit "UTF-8" ++ [dquote] ++ CRLF
        ++ lit "Content-Transfer-Encoding: 7bit" ++ CRLF ++ CRLF
        ++ text_or_empty (text m) ++ CRLF in
      let '(body, failed) :=
        attach_all pf boundary (attachments m) body [] in
      let body := body ++ lit "--" ++ boundary ++ lit "--" ++ CRLF in
      (join CRLF headers ++ CRLF ++ CRLF ++ body, failed)
  | [] =>
      let headers :=
        headers
        ++ [lit "Content-Type: text/plain; charset=" ++ [dquote]
            ++ lit "UTF-8" ++ [dquote]]
        ++ [lit "Content-Transfer-Encoding: 7bit"] in
      (join CRLF headers ++ CRLF ++ CRLF ++ text_or_empty (text m), [])
  end.

(** [Buffer.from(str)]: the UTF-8 bytes of a string of code units below
    U+0100. *)
Definition utf8 (s : str) : list N :=
  flat_map (fun c =>
    let n := N_of_ascii c in
    if (n <? 128)%N then [n]
    else [N.lor 192 (N.shiftr n 6); N.lor 128 (N.land n 63)]) s.

(** [.replace(/=+$/, '')]: the trailing run of [=] is removed. *)
Fixpoint drop_leading_eq (s : str) : str :=
  match s with
  | [] => []
  | c :: s' => if Ascii.eqb c "=" then drop_leading_eq s' else s
  end.

Definition strip_padding (s : str) : str := rev (drop_leading_eq (rev s)).

(** [toBase64Url(str)]. *)
Definition toBase64Url (s : str) : str :=
  strip_padding
    (map (fun c => if Ascii.eqb c "/" then "_" else c)
       (map (fun c => if Ascii.eqb c "+" then "-" else c)
          (base64_of (utf8 s)))).

(** The texts whose occurrences the tests of the builder count. *)
Definition disposition_marker : str := lit "Content-Disposition: attachment".
Definition boundary_marker : str := lit "boundary=".

(** Characters of [Math.random().toString(36)]: digits and lower-case
    letters. *)
Definition is_base36 (c : ascii) : bool :=
  let n := nat_of_ascii c in
  ((48 <=? n) && (n <=? 57) || (97 <=? n) && (n <=? 122))%nat.

Definition readable (pf : platform) (p : str) : bool :=
  match readFileSync pf p with Some _ => true | None => false end.

(** The parts written by the attachment loop, and the paths it logs. *)
Definition attachment_parts (pf : platform) (boundary : str)
  (attachments : list str) : str :=
  flat_map (fun p =>
    match readFileSync pf p with
    | Some data => attachment_part pf boundary p data
    | None => []
    end) attachments.

Definition unreadable (pf : platform) (attachments : list str) : list str :=
  List.filter (fun p => negb (readable pf p)) attachments.

(** No end of the fixed text [f] is a proper beginning of [m]: an
    occurrence of [m] in [f ++ s] lies in [f] or in [s]. *)
Fixpoint borderless (m f : str) : bool :=
  match f with
  | [] => true
  | _ :: f' =>
      negb ((length f <? length m)%nat && startsWith f m) && borderless m f'
  end.

(** The fixed text [f] starts with a character that [m] does not hold. *)
Definition head_outside (m f : str) : bool :=
  match f with
  | c :: _ => negb (existsb (Ascii.eqb c) m)
  | [] => false
  end.

(** Lines, each one ended by CRLF. *)
Definition lines_text (lines : list str) : str :=
  flat_map (fun l => l ++ CRLF) lines.

(** A text that does not hold [m]. *)
Definition free_of (m x : str) : Prop := occurrences m x = 0.

(** The MIME type written for an attachment path. *)
Definition content_type (pf : platform) (p : str) : str :=
  match mime_lookup pf (basename pf p) with
  | Some t => t
  | None => lit "application/octet-stream"
  end.

End Message.

(** ** Events left by calls that leave the process *)

Module Trace.
Import Js.

Inductive event :=
| GetValues (range : str)
| GetSendAs
| GetSheetMeta
| Send (row : nat) (raw : str)
| UpdateHeaders (range : str) (values : list value)
| UpdateCell (range : str) (text : str)
| Log (level message : str)
| Sleep (ms : Z)
| Telemetry (name : str) (recipients : nat).

End Trace.

(** ** Sheet status writer: [ensureStatusColumn], [updateSheetStatus] *)

Module Status.
Import Js Trace.

(** The loop of [columnIndexToA1]; [fuel] bounds its iterations. *)
Fixpoint column_loop (fuel : nat) (n : Z) (s : str) : str :=
  match fuel with
  | O => s
  | S fuel' =>
      if (n <? 0)%Z then s
      else column_loop fuel' (n / 26 - 1)%Z
             (ascii_of_nat (Z.to_nat (n mod 26) + 65) :: s)
  end.

(** [columnIndexToA1(n)]: [n] decreases at every iteration, so
    [n + 1] iterations are enough. *)
Definition columnIndexToA1 (n : Z) : str :=
  column_loop (S (Z.to_nat n)) n [].

(** [String(h).trim().toLowerCase() === 'status']. *)
Definition is_status (h : value) : bool :=
  str_eqb (toLowerCase (trim (toStr h))) (lit "status").

Definition index_or_minus_one (o : option nat) : Z :=
  match o with
  | Some i => Z.of_nat i
  | None => (-1)%Z
  end.

(** [ensureStatusColumn(sheetId, sheetTitle, headers)].  [headers] is
    the caller's array, which [push] mutates: the result carries the
    array after the call, the returned index and the events.
    [update_ok] tells whether [values.update] succeeds. *)
Definition ensureStatusColumn (sheetTitle : str) (headers : list value)
  (update_ok : bool) : list value * Z * list event :=
  match findIndex is_status headers with
  | Some i => (headers, Z.of_nat i, [])
  | None =>
      let headers' := headers ++ [VStr (lit "Status")] in
      let range :=
        sheetTitle ++ lit "!A1:"
        ++ columnIndexToA1 (Z.of_nat (length headers') - 1) ++ lit "1" in
      if update_ok
      then (headers', (Z.of_nat (length headers') - 1)%Z,
            [UpdateHeaders range headers'])
      else (headers', (-1)%Z,
            [UpdateHeaders range headers';
             Log (lit "error")
               (lit "Failed to ensure Status column (insufficient scope?)")])
  end.

(** Outcomes of the calls made by one [updateSheetStatus]:
    [services_ok] tells whether [ensureServices] returns (it throws
    [Not authenticated] otherwise). *)
Record sheet_calls := {
  services_ok : bool;
  first_tab : outcome value;
  header_update_ok : bool;
  cell_update_ok : bool
}.

(** [updateSheetStatus(sheetId, sheetTitle, headers, rowIndexZeroBased,
    statusText)]: the array after the call, the events, and
    [{ success }] or the error thrown. *)
Definition updateSheetStatus (sc : sheet_calls) (sheetTitle : value)
  (headers : list value) (rowIndexZeroBased : nat) (statusText : str)
  : list value * list event * outcome bool :=
  if negb (services_ok sc)
  then (headers, [], Thrown (lit "Not authenticated"))
  else
  let resolved :=
    if truthy sheetTitle then ([], Returned (toStr sheetTitle))
    else match first_tab sc with
         | Returned t =>
             ([GetSheetMeta],
              Returned (if truthy t then toStr t else lit "Sheet1"))
         | Thrown e => ([GetSheetMeta], Thrown e)
         end in
  match resolved with
  | (ev0, Thrown e) => (headers, ev0, Thrown e)
  | (ev0, Returned title) =>
      let '(headers', col, ev1) :=
        ensureStatusColumn title headers (header_update_ok sc) in
      let a1col := columnIndexToA1 col in
      let rowA1 := (Z.of_nat rowIndexZeroBased + 2)%Z in
      let range := title ++ lit "!" ++ a1col ++ toStr (VNum rowA1) in
      if cell_update_ok sc
      then (headers', ev0 ++ ev1 ++ [UpdateCell range statusText],
            Returned true)
      else (headers',
            ev0 ++ ev1 ++ [UpdateCell range statusText;
                           Log (lit "error") (lit "Sheets status update failed")],
            Returned false)
  end.

End Status.

(** ** Campaign runner: [executeCampaignRun] *)

Module Campaign.
Import Js Trace.

(** [CampaignParams].  [delaySeconds] is [None] when absent or null and
    an integer otherwise. *)
Record params := {
  sheetId : str;
  sheetTitle : value;
  subject : value;
  content : str;
  from : value;
  attachmentsPaths : option (list str);
  delaySeconds : option Z;
  useSignature : bool
}.

(** The outcomes of everything a run asks of the outside, per data row
    where a call is made once per row.  [primary_signature] is the text
    [pri?.signature || ''] returned by [getPrimarySignature]. *)
Record world := {
  services : bool;
  sheet_values : outcome (list (list value));
  primary_signature : outcome str;
  send_result : nat -> outcome unit;
  header_update_ok : nat -> bool;
  cell_update_ok : nat -> bool;
  random : nat -> Z;
  boundary_rnd : nat -> str;
  files : Message.platform
}.

Inductive run_result :=
| Completed
| Failed (message : str)
| OutsideModel.

(** [findEmailColumnIndex(headers)]. *)
Definition findEmailColumnIndex (headers : list value) : option nat :=
  findIndex (fun h => includes (lit "email") h)
    (map (fun h => toLowerCase (toStr h)) headers).

(** [Math.random()] is the double [r / 2^53] for an integer
    [0 <= r < 2^53]. *)
Definition random_range (r : Z) : Prop := (0 <= r < 2 ^ 53)%Z.

(** [Math.floor(Math.random() * 2000)], taken on the exact product.  The
    double product is the exact one rounded to 53 bits, so its floor can
    be one more than this value when the exact product lies within a
    rounding step below an integer; it stays below 2000, the largest
    product [(2^53 - 1) * 2000 / 2^53] rounding to [2000 - 2^-42]. *)
Definition jitter_of (r : Z) : Z := (r * 2000 / 2 ^ 53)%Z.

(** [delaySeconds || 5]. *)
Definition delay_or_default (d : option Z) : Z :=
  match d with
  | Some n => if (n =? 0)%Z then 5%Z else n
  | None => 5%Z
  end.

(** [(delaySeconds || 5) * 1000 + jitter]. *)
Definition pause_ms (d : option Z) (jitter : Z) : Z :=
  (delay_or_default d * 1000 + jitter)%Z.

Definition attachment_logs (failed : list str) : list event :=
  map (fun _ => Log (lit "error") (lit "Attachment read failed")) failed.

(** The loop [for (let i = 0; i < rows.length; i++)], from row [i] on.
    [headers] is the array shared with [updateSheetStatus], whose error,
    if it throws, is caught and dropped. *)
Fixpoint send_rows (w : world) (p : params) (emailIdx : nat)
  (signature : str) (rows : list (list value)) (i : nat)
  (headers : list value) : list event * run_result :=
  match rows with
  | [] => ([], Completed)
  | row :: rest =>
      let to := index row emailIdx in
      if negb (truthy to)
      then send_rows w p emailIdx signature rest (S i) headers
      else
        match Render.renderWithRow (content p) headers row (Some signature) with
        | None => ([], OutsideModel)
        | Some text =>
            let '(rawStr, failed) :=
              Message.buildRawEmail (files w) (boundary_rnd w i)
                {| Message.from := from p; Message.to := to;
                   Message.subject := subject p;
                   Message.text := VStr text;
                   Message.attachments :=
                     match attachmentsPaths p with
                     | Some l => l
                     | None => []
                     end |} in
            let sent := Send i (Message.toBase64Url rawStr) in
            match send_result w i with
            | Thrown e => (attachment_logs failed ++ [sent], Failed e)
            | Returned _ =>
                let '(headers', ev, _) :=
                  Status.updateSheetStatus
                    {| Status.services_ok := services w;
                       Status.first_tab := Returned VUndefined;
                       Status.header_update_ok := header_update_ok w i;
                       Status.cell_update_ok := cell_update_ok w i |}
                    (if truthy (sheetTitle p) then sheetTitle p
                     else VStr (lit "Sheet1"))
                    headers i (lit "SENT") in
                let jitter := jitter_of (random w i) in
                let '(evs, r) :=
                  send_rows w p emailIdx signature rest (S i) headers' in
                (attachment_logs failed ++ [sent] ++ ev
                 ++ [Sleep (pause_ms (delaySeconds p) jitter)] ++ evs, r)
            end
        end
  end.

(** [executeCampaignRun(params)]: the events of the run and how it
    ended. *)
Definition executeCampaignRun (w : world) (p : params)
  : list event * run_result :=
  if negb (services w) then ([], Failed (lit "Not authenticated"))
  else
    let range :=
      if truthy (sheetTitle p) then toStr (sheetTitle p) ++ lit "!A:Z"
      else lit "A:Z" in
    match sheet_values w with
    | Thrown e => ([GetValues range], Failed e)
    | Returned [] => ([GetValues range], Failed (lit "No data found in sheet"))
    | Returned (headers :: rows) =>
        match findEmailColumnIndex headers with
        | None => ([GetValues range], Failed (lit "No Email column found"))
        | Some emailIdx =>
            let sig :=
              if useSignature p
              then match primary_signature w with
                   | Returned v => ([GetSendAs], Returned v)
                   | Thrown e => ([GetSendAs], Thrown e)
                   end
              else ([], Returned []) in
            match sig with
            | (ev0, Thrown e) => (GetValues range :: ev0, Failed e)
            | (ev0, Returned signature) =>
                match send_rows w p emailIdx signature rows 0 headers with
                | (evs, Completed) =>
                    (GetValues range :: ev0 ++ evs
                     ++ [Telemetry (lit "campaign_run") (length rows)],
                     Completed)
                | (evs, r) => (GetValues range :: ev0 ++ evs, r)
                end
            end
        end
    end.

(** The sends and sleeps of a trace, in order. *)
Definition is_pacing (e : event) : bool :=
  match e with
  | Send _ _ | Sleep _ => true
  | _ => false
  end.

Definition timeline (tr : list event) : list event := List.filter is_pacing tr.

(** The rows for which [messages.send] was called, in order. *)
Fixpoint sent_rows (tr : list event) : list nat :=
  match tr with
  | [] => []
  | Send i _ :: tr' => i :: sent_rows tr'
  | _ :: tr' => sent_rows tr'
  end.

(** A timeline in which every send but possibly the last is followed by
    exactly one sleep, of [base] milliseconds plus a jitter below 2000. *)
Inductive paced (base : Z) : list event -> Prop :=
| paced_done : paced base []
| paced_last : forall i raw, paced base [Send i raw]
| paced_step : forall i raw jitter rest,
    (0 <= jitter < 2000)%Z ->
    paced base rest ->
    paced base (Send i raw :: Sleep (base + jitter) :: rest).

End Campaign.

(** ** Scheduler: [scheduleOneTimeCampaign], [cancelScheduledJob] *)

Module Scheduler.

(** An entry of the registry [getJobsMap()]; its [type] is always
    ['one-time'].  [timer] is the handle returned by [setTimeout]. *)
Record job := {
  id : string;
  startAt : Z;
  params : Campaign.params;
  timer : nat
}.

(** The registry, the timeouts still armed (handle to the [id] and
    [params] captured by the callback, and the delay), the next handle,
    the callbacks that are awaiting [executeCampaignRun], and the
    handles whose callback has invoked the campaign runner. *)
Record state := {
  jobs : gmap string job;
  timers : gmap nat (string * Campaign.params * Z);
  next_timer : nat;
  running : gmap nat string;
  invoked : list nat
}.

Definition initial : state :=
  {| jobs := ∅; timers := ∅; next_timer := 0; running := ∅; invoked := [] |}.

(** [scheduleOneTimeCampaign(params)].  [new_id] is the generated id,
    [start] is [new Date(params.startAt).getTime()] and [now] is
    [Date.now()].  Returns [{ id, startAt }]. *)
Definition scheduleOneTimeCampaign (st : state) (p : Campaign.params)
  (start now : Z) (new_id : string) : state * (string * Z) :=
  let ms := Z.max 0 (start - now) in
  let h := next_timer st in
  ({| jobs := <[new_id := {| id := new_id; startAt := start; params := p;
                            timer := h |}]> (jobs st);
      timers := <[h := (new_id, p, ms)]> (timers st);
      next_timer := S h;
      running := running st;
      invoked := invoked st |},
   (new_id, start)).

(** The timeout with handle [h] fires: its callback starts and calls
    [executeCampaignRun(params)].  Nothing happens for a handle that is
    not armed. *)
Definition fire (st : state) (h : nat) : state :=
  match timers st !! h with
  | Some (jid, _, _) =>
      {| jobs := jobs st;
         timers := delete h (timers st);
         next_timer := next_timer st;
         running := <[h := jid]> (running st);
         invoked := invoked st ++ [h] |}
  | None => st
  end.

(** The run started by the callback of [h] ends, with or without an
    error: [finally { getJobsMap().delete(id); }]. *)
Definition finish (st : state) (h : nat) : state :=
  match running st !! h with
  | Some jid =>
      {| jobs := delete jid (jobs st);
         timers := timers st;
         next_timer := next_timer st;
         running := delete h (running st);
         invoked := invoked st |}
  | None => st
  end.

(** [cancelScheduledJob(id)]. *)
Definition cancelScheduledJob (st : state) (jid : string) : state * bool :=
  match jobs st !! jid with
  | None => (st, false)
  | Some j =>
      ({| jobs := delete jid (jobs st);
          timers := delete (timer j) (timers st);
          next_timer := next_timer st;
          running := running st;
          invoked := invoked st |},
       true)
  end.

(** What can happen to the scheduler, and a history of it. *)
Inductive action :=
| Schedule (p : Campaign.params) (start now : Z) (new_id : string)
| Fire (h : nat)
| Finish (h : nat)
| Cancel (jid : string).

Definition step (st : state) (a : action) : state :=
  match a with
  | Schedule p start now new_id =>
      fst (scheduleOneTimeCampaign st p start now new_id)
  | Fire h => fire st h
  | Finish h => finish st h
  | Cancel jid => fst (cancelScheduledJob st jid)
  end.

Definition exec (st : state) (history : list action) : state :=
  fold_left step history st.

(** A job is pending while its timeout is armed, and has fired once its
    callback has invoked the campaign runner. *)
Definition pending (st : state) (jid : string) : Prop :=
  exists j, jobs st !! jid = Some j /\ is_Some (timers st !! timer j).

Definition fired (st : state) (jid : string) : Prop :=
  exists j, jobs st !! jid = Some j /\ In (timer j) (invoked st).

(** Handles are below [next_timer], and every generated id is new. *)
Definition handles_bounded (st : state) : Prop :=
  (forall h c, timers st !! h = Some c -> h < next_timer st)
  /\ (forall jid j, jobs st !! jid = Some j -> timer j < next_timer st)
  /\ (forall h, In h (invoked st) -> h < next_timer st).

(** The timeout [h] is not armed, it is an old handle and its callback
    has not invoked the campaign runner. *)
Definition disarmed (h : nat) (st : state) : Prop :=
  timers st !! h = None /\ h < next_timer st /\ ~ In h (invoked st).

End Scheduler.

(** ** Sample inputs *)

Module Samples.
Import Js.

(** A file system where every path holds the two bytes [hi]. *)
Definition files : Message.platform :=
  {| Message.readFileSync := fun _ => Some [Byte.x68; Byte.x69];
     Message.basename := fun p => p;
     Message.mime_lookup := fun _ => Some (lit "text/plain") |}.

(** A sheet with a header row and three data rows. *)
Definition sheet : list (list value) :=
  [[VStr (lit "Name"); VStr (lit "Email")];
   [VStr (lit "Ann"); VStr (lit "ann@x.com")];
   [VStr (lit "Bo"); VStr (lit "bo@x.com")];
   [VStr (lit "Cy"); VStr (lit "cy@x.com")]].

(** A world where the provider rejects the sends of the rows selected
    by [fails], and every random draw is one half. *)
Definition world (fails : nat -> bool) : Campaign.world :=
  {| Campaign.services := true;
     Campaign.sheet_values := Returned sheet;
     Campaign.primary_signature := Returned [];
     Campaign.send_result :=
       fun i => if fails i then Thrown (lit "provider error")
                else Returned tt;
     Campaign.header_update_ok := fun _ => true;
     Campaign.cell_update_ok := fun _ => true;
     Campaign.random := fun _ => (2 ^ 52)%Z;
     Campaign.boundary_rnd := fun _ => lit "k3j2x";
     Campaign.files := files |}.

Definition campaign (delay : option Z) : Campaign.params :=
  {| Campaign.sheetId := lit "sheet-1";
     Campaign.sheetTitle := VUndefined;
     Campaign.subject := VStr (lit "Hello");
     Campaign.content := lit "Hi ((Name))";
     Campaign.from := VUndefined;
     Campaign.attachmentsPaths := None;
     Campaign.delaySeconds := delay;
     Campaign.useSignature := false |}.

Definition job_id : string := "job_1"%string.

(** A campaign is scheduled ten seconds ahead on a fresh scheduler. *)
Definition scheduled : Scheduler.state :=
  fst (Scheduler.scheduleOneTimeCampaign Scheduler.initial (campaign None)
         10000 0 job_id).

End Samples.
(** ** Template names: [sanitizeName] *)

Module Naming.
Import Js.

(** The characters kept by [/[^a-z0-9-_]+/gi]: letters of either case,
    digits, [-] and [_]. *)
Definition is_name_char (c : ascii) : bool :=
  let n := nat_of_ascii c in
  ((97 <=? n) && (n <=? 122) || (65 <=? n) && (n <=? 90)
   || (48 <=? n) && (n <=? 57))%nat
  || Ascii.eqb c "-" || Ascii.eqb c "_".

(** [.replace(/[^a-z0-9-_]+/gi, '_')]: every maximal run of other
    characters becomes one underscore.  [in_run] tells whether the
    previous character belonged to such a run. *)
Fixpoint replace_runs (in_run : bool) (s : str) : str :=
  match s with
  | [] => []
  | c :: s' =>
      if is_name_char c then c :: replace_runs false s'
      else if in_run then replace_runs true s'
      else "_" :: replace_runs true s'
  end.

(** [sanitizeName(name)]. *)
Definition sanitizeName (name : value) : str :=
  firstn 80
    (replace_runs false
       (toStr (if truthy name then name else VStr (lit "template")))).

End Naming.

(** ** Session state: [ensureServices] *)

Module Session.
Import Js.

(** The module-level handles.  [oauth2Client] is [None] for [null] and
    otherwise names the client object; a service handle is [None] for
    [null] and otherwise names the client object it was built with
    ([auth: oauth2Client]). *)
Record clients := {
  oauth2Client : option nat;
  gmailService : option nat;
  sheetsService : option nat
}.

(** The two keys of the store that the session reads: whether
    [store.get('googleToken')] and [store.get('googleCreds')] are
    truthy. *)
Record stored := {
  googleToken : bool;
  googleCreds : bool
}.

(** [ensureServices()]: the handles after the call and whether it
    threw.  [fresh] names the client object that [buildOAuthClient]
    creates when it is called. *)
Definition ensureServices (cl : clients) (st : stored) (fresh : nat)
  : clients * outcome unit :=
  let client :=
    match oauth2Client cl with
    | Some c => Returned c
    | None =>
        if negb (googleToken st) || negb (googleCreds st)
        then Thrown (lit "Not authenticated")
        else Returned fresh
    end in
  match client with
  | Thrown e => (cl, Thrown e)
  | Returned c =>
      ({| oauth2Client := Some c;
          gmailService :=
            match gmailService cl with Some g => Some g | None => Some c end;
          sheetsService :=
            match sheetsService cl with Some g => Some g | None => Some c end |},
       Returned tt)
  end.

End Session.

(** ** Reference readings used to state properties *)

Module Reference.
Import Js.

(** The column index written by a column name in A1 notation: the
    letters are the digits 1 to 26 of a base-26 numeral, and the index
    is the numeral minus one. *)
Definition a1_numeral (s : str) : Z :=
  fold_left (fun acc c => (acc * 26 + (Z.of_nat (nat_of_ascii c) - 64))%Z) s 0%Z.

Definition a1_index (s : str) : Z := (a1_numeral s - 1)%Z.

Definition is_upper (c : ascii) : bool :=
  ((65 <=? nat_of_ascii c) && (nat_of_ascii c <=? 90))%nat.

(** A text cut into consecutive pieces of 76 characters, the last one
    possibly shorter; [fuel] bounds the number of pieces. *)
Fixpoint chunks_from (fuel : nat) (s : str) : list str :=
  match fuel with
  | O => []
  | S fuel' =>
      match s with
      | [] => []
      | _ :: _ => firstn 76 s :: chunks_from fuel' (skipn 76 s)
      end
  end.

Definition chunks76 (s : str) : list str := chunks_from (length s) s.

(** The characters of a base64url text without padding. *)
Definition is_url_char (c : ascii) : bool :=
  let n := nat_of_ascii c in
  ((97 <=? n) && (n <=? 122) || (65 <=? n) && (n <=? 90)
   || (48 <=? n) && (n <=? 57))%nat
  || Ascii.eqb c "-" || Ascii.eqb c "_".

(** The rows of a sheet, with their indices, whose recipient cell is
    not empty. *)
Fixpoint addressed_from (emailIdx : nat) (rows : list (list value)) (i : nat)
  : list nat :=
  match rows with
  | [] => []
  | row :: rest =>
      if truthy (index row emailIdx)
      then i :: addressed_from emailIdx rest (S i)
      else addressed_from emailIdx rest (S i)
  end.

(** A text without line terminators. *)
Definition no_terminator (s : str) : Prop :=
  Forall (fun c => Message.is_line_terminator c = false) s.

(** A base64 text: digits of the alphabet, then at most two [=]. *)
Definition padded (body pad : str) : Prop :=
  Forall (fun c => In c Message.base64_alphabet) body
  /\ (pad = [] \/ pad = ["="] \/ pad = ["="; "="]).

(** A text in which no [<] opens a tag. *)
Fixpoint tag_free (s : str) : Prop :=
  match s with
  | [] => True
  | c :: s' => (c = "<" -> Render.tag_opens s' = false) /\ tag_free s'
  end.

(** A header whose text holds ['email'] in any mix of cases. *)
Definition names_email (h : value) : bool :=
  includes (lit "email") (toLowerCase (toStr h)).

(** The provider accepted the send of row [k]. *)
Definition accepted (w : Campaign.world) (k : nat) : Prop :=
  exists u, Campaign.send_result w k = Returned u.

(** How the loop of a run ends, given the rows with a recipient and
    the rows sent: either every such row was sent and accepted, or the
    rows sent are the first ones up to a rejected one. *)
Definition loop_outcome (w : Campaign.world) (addressed sent : list nat)
  (r : Campaign.run_result) : Prop :=
  match r with
  | Campaign.Completed => sent = addressed /\ Forall (accepted w) sent
  | Campaign.Failed msg =>
      exists pre k rest,
        sent = pre ++ [k] /\ addressed = pre ++ k :: rest
        /\ Forall (accepted w) pre
        /\ Campaign.send_result w k = Thrown msg
  | Campaign.OutsideModel => False
  end.

(** The job [jid] of the registry is waiting for its timeout or its run
    is under way. *)
Definition waiting_or_running (st : Scheduler.state) (jid : string)
  (j : Scheduler.job) : Prop :=
  (exists p ms, Scheduler.timers st !! Scheduler.timer j = Some (jid, p, ms))
  \/ Scheduler.running st !! Scheduler.timer j = Some jid.

(** The registry and the timeouts agree. *)
Definition consistent (st : Scheduler.state) : Prop :=
  (forall jid j, Scheduler.jobs st !! jid = Some j ->
     waiting_or_running st jid j)
  /\ (forall h jid, Scheduler.running st !! h = Some jid ->
       Scheduler.timers st !! h = None /\ h < Scheduler.next_timer st)
  /\ Scheduler.handles_bounded st.

(** No callback has invoked the campaign runner twice, and no timeout
    that has fired is armed. *)
Definition fires_once (st : Scheduler.state) : Prop :=
  NoDup (Scheduler.invoked st)
  /\ (forall h, In h (Scheduler.invoked st) -> Scheduler.timers st !! h = None)
  /\ Scheduler.handles_bounded st.

(** Two worlds that differ at most in the outcome of the status
    writes. *)
Definition same_but_status (w w' : Campaign.world) : Prop :=
  Campaign.services w = Campaign.services w'
  /\ Campaign.sheet_values w = Campaign.sheet_values w'
  /\ Campaign.primary_signature w = Campaign.primary_signature w'
  /\ (forall i, Campaign.send_result w i = Campaign.send_result w' i)
  /\ (forall i, Campaign.random w i = Campaign.random w' i)
  /\ (forall i, Campaign.boundary_rnd w i = Campaign.boundary_rnd w' i)
  /\ Campaign.files w = Campaign.files w'.

End Reference.

(* ================================================================== *)
(** * Part II: lemmas and theorems                                     *)
(* ================================================================== *)

(** ** Strings *)

Module JsFacts.
Import Js.

Lemma str_eqb_refl (a : str) : str_eqb a a = true.
Proof.
  induction a as [|c a IH]; simpl; [reflexivity|].
  now rewrite Ascii.eqb_refl, IH.
Qed.

Lemma str_eqb_eq (a b : str) : str_eqb a b = true <-> a = b.
Proof.
  split.
  - revert b. induction a as [|c a IH]; intros [|d b]; simpl; try easy.
    intros H. apply andb_true_iff in H as [Hc Hr].
    apply Ascii.eqb_eq in Hc. f_equal; auto.
  - intros ->. apply str_eqb_refl.
Qed.

Lemma str_eqb_neq (a b : str) : str_eqb a b = false <-> a <> b.
Proof.
  rewrite <- str_eqb_eq. destruct (str_eqb a b); split; congruence.
Qed.

Lemma startsWith_app (p s : str) : startsWith p (p ++ s) = true.
Proof.
  induction p as [|c p IH]; simpl; [reflexivity|].
  now rewrite Ascii.eqb_refl, IH.
Qed.

Lemma startsWith_inv (p s : str) :
  startsWith p s = true -> exists r, s = p ++ r.
Proof.
  revert s. induction p as [|c p IH]; intros s H; simpl in *.
  - now exists s.
  - destruct s as [|d s]; [discriminate|].
    apply andb_true_iff in H as [Hc Hr]. apply Ascii.eqb_eq in Hc. subst d.
    destruct (IH _ Hr) as [r ->]. now exists r.
Qed.

Lemma startsWith_head_neq (c d : ascii) (p s : str) :
  c <> d -> startsWith (c :: p) (d :: s) = false.
Proof.
  intros H. simpl. apply Ascii.eqb_neq in H. now rewrite H.
Qed.

Lemma includes_here (p s : str) : startsWith p s = true -> includes p s = true.
Proof. intros H. destruct s; simpl in *; now rewrite H. Qed.

Lemma includes_app_r (p a s : str) :
  includes p s = true -> includes p (a ++ s) = true.
Proof.
  intros H. induction a as [|c a IH]; simpl; [exact H|].
  rewrite IH. apply orb_true_r.
Qed.

Lemma includes_mid (p a b : str) : includes p (a ++ p ++ b) = true.
Proof. apply includes_app_r, includes_here, startsWith_app. Qed.

End JsFacts.

(** ** Template renderer *)

Module RenderFacts.
Import Js JsFacts Render.

(** *** The pattern built from a header is a literal *)

Lemma escaped_char_is_literal (c : ascii) (rest out : str) :
  regexp_literal rest = Some out ->
  regexp_literal ((if is_escaped c then ["\"; c] else [c]) ++ rest)
  = Some (c :: out).
Proof.
  intros H.
  destruct c as [[] [] [] [] [] [] [] []]; cbn; rewrite H; reflexivity.
Qed.

Lemma escapeRegExp_is_literal (key rest out : str) :
  regexp_literal rest = Some out ->
  regexp_literal (escapeRegExp key ++ rest) = Some (key ++ out).
Proof.
  intros H. induction key as [|c key IH]; [exact H|].
  unfold escapeRegExp in *. cbn [flat_map]. rewrite <- app_assoc.
  now apply escaped_char_is_literal.
Qed.

Lemma pattern_source_is_literal (key : str) :
  regexp_literal (pattern_source key) = Some (placeholder key).
Proof.
  unfold pattern_source, placeholder.
  change (lit "\(\(" ++ escapeRegExp key ++ lit "\)\)")
    with ("\" :: "(" :: "\" :: "(" :: escapeRegExp key ++ lit "\)\)").
  cbn [regexp_literal is_syntax_char orb].
  rewrite (escapeRegExp_is_literal key (lit "\)\)") (lit "))")) by reflexivity.
  reflexivity.
Qed.

Lemma render_headers_cons (h : value) (hs : list value) (i : nat)
  (row : list value) (out : str) :
  render_headers (h :: hs) i row out
  = render_headers hs (S i) row
      (replaceAll (placeholder (header_key h)) (cell_text row i) out).
Proof. cbn [render_headers]. now rewrite pattern_source_is_literal. Qed.

Lemma render_headers_total (hs : list value) (i : nat) (row : list value)
  (out : str) : exists res, render_headers hs i row out = Some res.
Proof.
  revert i out. induction hs as [|h hs IH]; intros i out.
  - now exists out.
  - rewrite render_headers_cons. apply IH.
Qed.


(** *** Scanning a text for a placeholder *)

Lemma getSubstitution_plain (v matched before after : str) :
  no_char "$" v -> getSubstitution v matched before after = v.
Proof.
  unfold no_char. induction v as [|c v IH]; intros H; [reflexivity|].
  assert (Hc : c <> "$") by (intros ->; apply H; now left).
  assert (Hv : ~ In "$" v) by (intros Hin; apply H; now right).
  specialize (IH Hv).
  destruct c as [[] [] [] [] [] [] [] []]; cbn; now rewrite IH.
Qed.

Lemma replace_from_skip (pat v a rest seen : str) :
  replace_from pat v seen (length a) (a ++ rest)
  = replace_from pat v (rev a ++ seen) 0 rest.
Proof.
  revert seen. induction a as [|c a IH]; intros seen; [reflexivity|].
  cbn [length app replace_from rev]. rewrite IH. now rewrite <- app_assoc.
Qed.

Lemma replace_from_pass (pat v a rest seen : str) :
  no_match_in pat a rest ->
  replace_from pat v seen 0 (a ++ rest)
  = a ++ replace_from pat v (rev a ++ seen) 0 rest.
Proof.
  revert seen. induction a as [|c a IH]; intros seen H; [reflexivity|].
  destruct H as [H0 H]. cbn [app] in *. cbn [replace_from]. rewrite H0.
  rewrite (IH _ H). cbn [rev]. now rewrite <- app_assoc.
Qed.

Lemma replace_from_match (pat v rest seen : str) :
  pat <> [] -> no_char "$" v ->
  replace_from pat v seen 0 (pat ++ rest)
  = v ++ replace_from pat v (rev pat ++ seen) 0 rest.
Proof.
  intros Hne Hv. destruct pat as [|c pat]; [congruence|].
  cbn [app replace_from].
  change (c :: pat ++ rest) with ((c :: pat) ++ rest).
  rewrite startsWith_app, getSubstitution_plain by assumption.
  f_equal. replace (length (c :: pat) - 1) with (length pat) by (cbn; lia).
  rewrite replace_from_skip.
  cbn [rev]. now rewrite <- app_assoc.
Qed.

Lemma includes_pass (pat a rest : str) :
  no_match_in pat a rest -> includes pat (a ++ rest) = includes pat rest.
Proof.
  induction a as [|c a IH]; intros H; [reflexivity|].
  destruct H as [H0 H]. cbn [app] in *. cbn [includes]. rewrite H0.
  now apply IH.
Qed.

(** *** Placeholders in a text without stray parentheses *)

Lemma no_char_app (c : ascii) (a b : str) :
  no_char c (a ++ b) <-> no_char c a /\ no_char c b.
Proof. unfold no_char. rewrite in_app_iff. tauto. Qed.

Lemma no_char_cons (c d : ascii) (a : str) :
  no_char c (d :: a) <-> c <> d /\ no_char c a.
Proof. unfold no_char. cbn. split; [intros H; split; intros ?; apply H; auto | intros [? ?] [?|?]; auto]. Qed.

Lemma placeholder_unfold (k : str) :
  placeholder k = "(" :: "(" :: k ++ [")"; ")"].
Proof. reflexivity. Qed.

Lemma no_match_no_open (k a rest : str) :
  no_char "(" a -> no_match_in (placeholder k) a rest.
Proof.
  induction a as [|c a IH]; intros H; [exact I|].
  apply no_char_cons in H as [Hc Ha]. split; [|now apply IH].
  rewrite placeholder_unfold. cbn [app]. now apply startsWith_head_neq.
Qed.

(** Inside [((k'))], a pattern [k))] can only match [k'))] itself. *)
Lemma key_match_inv (k k' rest : str) :
  paren_free k -> paren_free k' ->
  startsWith (k ++ [")"; ")"]) (k' ++ [")"; ")"] ++ rest) = true -> k = k'.
Proof.
  revert k'. induction k as [|c k IH]; intros k' [Ho Hc] [Ho' Hc'] H.
  - destruct k' as [|c' k']; [reflexivity|].
    apply no_char_cons in Hc' as [Hn _]. cbn [startsWith app] in H.
    apply andb_true_iff in H as [H _]. apply Ascii.eqb_eq in H. congruence.
  - apply no_char_cons in Hc as [Hn Hc]. apply no_char_cons in Ho as [_ Ho].
    destruct k' as [|c' k'].
    + cbn [startsWith app] in H. apply andb_true_iff in H as [H _].
      apply Ascii.eqb_eq in H. congruence.
    + apply no_char_cons in Hc' as [_ Hc']. apply no_char_cons in Ho' as [_ Ho'].
      cbn [startsWith app] in H. apply andb_true_iff in H as [H1 H2].
      apply Ascii.eqb_eq in H1. subst c'. f_equal.
      apply IH; [split| split |]; assumption.
Qed.

Lemma no_match_other_hole (k k' rest : str) :
  paren_free k -> paren_free k' -> k <> k' ->
  no_match_in (placeholder k) (placeholder k') rest.
Proof.
  intros Hk Hk' Hne. rewrite (placeholder_unfold k').
  cbn [no_match_in]. split; [|split].
  - destruct (startsWith (placeholder k) (("(" :: "(" :: k' ++ [")"; ")"]) ++ rest)) eqn:E;
      [|reflexivity].
    exfalso. apply Hne. rewrite placeholder_unfold in E.
    cbn [app startsWith] in E. rewrite !Ascii.eqb_refl in E. cbn [andb] in E.
    rewrite <- app_assoc in E. now apply key_match_inv in E.
  - rewrite placeholder_unfold. cbn [app startsWith].
    rewrite Ascii.eqb_refl. cbn [andb].
    destruct Hk' as [Ho' _].
    destruct k' as [|c' k']; cbn [app].
    + now apply startsWith_head_neq.
    + apply no_char_cons in Ho' as [Hn _]. now apply startsWith_head_neq.
  - apply no_match_no_open. destruct Hk' as [Ho' _].
    apply no_char_app. split; [assumption|].
    unfold no_char. cbn. intros [H|[H|[]]]; discriminate.
Qed.

(** *** One header applied to a template *)

Lemma template_text_cons (t : token) (ts : list token) :
  template_text (t :: ts) = token_text t ++ template_text ts.
Proof. reflexivity. Qed.

Lemma placeholder_nonempty (k : str) : placeholder k <> [].
Proof. rewrite placeholder_unfold. discriminate. Qed.

Lemma replace_template (k v : str) (ts : list token) (seen : str) :
  paren_free k -> no_char "$" v ->
  Forall token_paren_free ts ->
  replace_from (placeholder k) v seen 0 (template_text ts)
  = template_text (map (subst_token k v) ts).
Proof.
  intros Hk Hv Hts. revert seen.
  induction Hts as [|t ts Ht Hts IH]; intros seen; [reflexivity|].
  cbn [map]. rewrite !template_text_cons.
  destruct t as [s|k']; cbn [subst_token token_text].
  - rewrite replace_from_pass by (apply no_match_no_open, Ht).
    now rewrite IH.
  - destruct (str_eqb k k') eqn:E.
    + apply str_eqb_eq in E. subst k'. cbn [token_text].
      rewrite replace_from_match by (auto using placeholder_nonempty).
      now rewrite IH.
    + apply str_eqb_neq in E. cbn [token_text].
      rewrite replace_from_pass by (now apply no_match_other_hole).
      now rewrite IH.
Qed.

Lemma subst_token_paren_free (k v : str) (ts : list token) :
  paren_free v -> Forall token_paren_free ts ->
  Forall token_paren_free (map (subst_token k v) ts).
Proof.
  intros Hv Hts. induction Hts as [|t ts Ht Hts IH]; constructor; [|exact IH].
  destruct t as [s|k']; cbn; [exact Ht|].
  destruct (str_eqb k k'); cbn; assumption.
Qed.

Lemma fill_after_subst (h : value) (hs : list value) (i : nat)
  (row : list value) (t : token) :
  fill_token_from hs (S i) row (subst_token (header_key h) (cell_text row i) t)
  = fill_token_from (h :: hs) i row t.
Proof.
  destruct t as [s|k]; cbn; [reflexivity|].
  destruct (str_eqb (header_key h) k); reflexivity.
Qed.

(** Hypotheses on headers and cells, from index [i] on. *)
Lemma render_template_from (hs : list value) (i : nat) (row : list value)
  (ts : list token) :
  Forall token_paren_free ts ->
  Forall (fun h => paren_free (header_key h)) hs ->
  (forall j, j < length hs -> plain_text (cell_text row (i + j))) ->
  render_headers hs i row (template_text ts)
  = Some (template_text (map (fill_token_from hs i row) ts)).
Proof.
  revert i ts. induction hs as [|h hs IH]; intros i ts Hts Hhs Hrow.
  - cbn. f_equal. f_equal. induction ts as [|[s|k] ts IHts]; cbn; f_equal;
      inversion Hts; auto.
  - rewrite render_headers_cons. unfold replaceAll.
    inversion Hhs as [|? ? Hh Hhs']; subst.
    destruct (Hrow 0) as [Hpf Hd]; [cbn; lia|]. rewrite Nat.add_0_r in Hpf, Hd.
    rewrite replace_template by assumption.
    rewrite IH.
    + f_equal. f_equal. rewrite map_map. apply map_ext.
      intros t. apply fill_after_subst.
    + now apply subst_token_paren_free.
    + assumption.
    + intros j Hj. replace (S i + j) with (i + S j) by lia.
      apply Hrow. cbn. lia.
Qed.

(** *** Rendering twice *)

Lemma lookup_key_some (hs : list value) (i : nat) (row : list value)
  (k v : str) :
  lookup_key hs i row k = Some v ->
  exists j, j < length hs /\ v = cell_text row (i + j).
Proof.
  revert i. induction hs as [|h hs IH]; intros i H; [discriminate|].
  cbn in H. destruct (str_eqb (header_key h) k).
  - injection H as <-. exists 0. rewrite Nat.add_0_r. cbn. split; [lia|reflexivity].
  - destruct (IH _ H) as (j & Hj & ->). exists (S j). cbn.
    split; [lia|]. f_equal. lia.
Qed.

Lemma lookup_key_none (hs : list value) (i : nat) (row : list value)
  (k : str) :
  lookup_key hs i row k = None <-> (forall h, In h hs -> header_key h <> k).
Proof.
  revert i. induction hs as [|h hs IH]; intros i; cbn.
  - split; [intros _ ? []|reflexivity].
  - destruct (str_eqb (header_key h) k) eqn:E.
    + apply str_eqb_eq in E. split; [discriminate|].
      intros H. exfalso. apply (H h); auto.
    + apply str_eqb_neq in E. rewrite IH. split.
      * intros H h' [<-|Hin]; auto.
      * intros H h' Hin. apply H. now right.
Qed.

Lemma fill_token_paren_free (hs row : list value) (ts : list token) :
  Forall token_paren_free ts ->
  (forall j, j < length hs -> plain_text (cell_text row j)) ->
  Forall token_paren_free (map (fill_token hs row) ts).
Proof.
  intros Hts Hrow. induction Hts as [|t ts Ht Hts IH]; constructor; [|exact IH].
  destruct t as [s|k]; cbn; [exact Ht|].
  destruct (lookup_key hs 0 row k) as [v|] eqn:E; cbn; [|exact Ht].
  apply lookup_key_some in E as (j & Hj & ->). now apply Hrow.
Qed.

Lemma fill_token_idem (hs row : list value) (t : token) :
  fill_token hs row (fill_token hs row t) = fill_token hs row t.
Proof.
  destruct t as [s|k]; cbn; [reflexivity|].
  destruct (lookup_key hs 0 row k) eqn:E; cbn; [reflexivity|].
  now rewrite E.
Qed.

Lemma includes_nil (p : str) : p <> [] -> includes p [] = false.
Proof. destruct p; [congruence|reflexivity]. Qed.

Lemma includes_template (k : str) (ts : list token) :
  paren_free k -> Forall token_paren_free ts ->
  includes (placeholder k) (template_text ts) = true -> In (Hole k) ts.
Proof.
  intros Hk Hts. induction Hts as [|t ts Ht Hts IH]; intros H.
  - cbn in H. discriminate.
  - rewrite template_text_cons in H. destruct t as [s|k']; cbn [token_text] in H.
    + rewrite includes_pass in H by (apply no_match_no_open, Ht).
      right. now apply IH.
    + destruct (str_eqb k k') eqn:E.
      * apply str_eqb_eq in E. subst. now left.
      * apply str_eqb_neq in E.
        rewrite includes_pass in H by (now apply no_match_other_hole).
        right. now apply IH.
Qed.

Lemma template_text_split (t : token) (ts : list token) :
  In t ts -> exists a b, template_text ts = a ++ token_text t ++ b.
Proof.
  induction ts as [|t' ts IH]; intros H; [destruct H|].
  rewrite template_text_cons. destruct H as [->|H].
  - now exists [], (template_text ts).
  - destruct (IH H) as (a & b & ->). exists (token_text t' ++ a), b.
    now rewrite <- app_assoc.
Qed.

Lemma cell_text_short (row : list value) (i : nat) :
  length row <= i -> cell_text row i = [].
Proof.
  intros H. unfold cell_text, index.
  apply nth_error_None in H. now rewrite H.
Qed.

Lemma renderWithRow_no_signature (content : str) (hs row : list value) :
  renderWithRow content hs row None = render_headers hs 0 row content.
Proof.
  unfold renderWithRow.
  destruct (render_headers_total hs 0 row content) as [res ->]. reflexivity.
Qed.

Lemma render_plain_template (ts : list token) (hs row : list value) :
  Forall token_paren_free ts ->
  Forall (fun h => paren_free (header_key h)) hs ->
  (forall j, j < length hs -> plain_text (cell_text row j)) ->
  renderWithRow (template_text ts) hs row None = Some (filled_text hs row ts).
Proof.
  intros Hts Hhs Hrow. rewrite renderWithRow_no_signature.
  now apply render_template_from.
Qed.

(** C9.  The pattern source that [renderWithRow] builds for a header
    denotes exactly the text [((key))], whatever characters the key
    holds: every character of the escaped class is preceded by a
    backslash, so the source is a literal.  Rendering with one header
    therefore replaces the occurrences of that text and nothing else. *)
Theorem header_pattern_is_literal (key : str) (h : value) (content : str)
  (row : list value) :
  regexp_literal (pattern_source key) = Some (placeholder key)
  /\ renderWithRow content [h] row None
     = Some (replaceAll (placeholder (header_key h)) (cell_text row 0) content).
Proof.
  split; [apply pattern_source_is_literal|].
  rewrite renderWithRow_no_signature. now rewrite render_headers_cons.
Qed.

(** A header made of metacharacters matches only its own text. *)
Example metacharacter_header :
  renderWithRow (lit "((a.c*)) ((abc)) ((a.c*))") [VStr (lit "a.c*")]
    [VStr (lit "V")] None
  = Some (lit "V ((abc)) V").
Proof. reflexivity. Qed.

Lemma replace_from_plain (pat v seen : str) (skip : nat) (s : str) :
  no_char "$" v -> replace_from pat v seen skip s = spec_replace pat v skip s.
Proof.
  intros Hv. revert seen skip. induction s as [|c s IH]; intros seen skip;
    [reflexivity|].
  cbn [replace_from spec_replace]. destruct skip as [|k]; [|apply IH].
  destruct (startsWith pat (c :: s)).
  - rewrite getSubstitution_plain by assumption. now rewrite IH.
  - now rewrite IH.
Qed.

Lemma spec_replace_absent (pat v s : str) :
  includes pat s = false -> spec_replace pat v 0 s = s.
Proof.
  induction s as [|c s IH]; intros H; [reflexivity|].
  cbn [includes] in H. apply orb_false_iff in H as [H0 H1].
  cbn [spec_replace]. rewrite H0. f_equal. now apply IH.
Qed.

Lemma render_headers_trimmed (hs : list value) (i : nat) (row : list value)
  (out : str) :
  (forall j, j < length hs -> no_char "$" (cell_text row (i + j))) ->
  render_headers hs i row out = Some (trimmed_render_from hs i row out).
Proof.
  revert i out. induction hs as [|h hs IH]; intros i out Hrow; [reflexivity|].
  rewrite render_headers_cons. unfold replaceAll.
  rewrite replace_from_plain
    by (rewrite <- (Nat.add_0_r i); apply Hrow; cbn; lia).
  cbn [trimmed_render_from]. apply IH.
  intros j Hj. replace (S i + j) with (i + S j) by lia. apply Hrow. cbn. lia.
Qed.

(** C2, as amended.  For every template text, header list and row
    whose cell texts hold no dollar sign, [renderWithRow] is the
    rendering that takes the headers in index order and, for the header
    at index [i], replaces every literal occurrence of [((k))] - [k]
    being the header text with leading and trailing white space
    trimmed, not case-folded - with the text of the row's cell [i]: the
    cell coerced to a string, or the empty string when the row is
    shorter than that index or the cell is null.  A template that holds
    the placeholder of no header is left intact. *)
Theorem render_is_trimmed_replacement (content : str) (hs row : list value) :
  (forall j, j < length hs -> no_char "$" (cell_text row j)) ->
  renderWithRow content hs row None = Some (trimmed_render content hs row)
  /\ (forall i, length row <= i -> cell_text row i = [])
  /\ (forall i, not_nullish (index row i) = false -> cell_text row i = [])
  /\ ((forall h, In h hs ->
       includes (placeholder (header_key h)) content = false) ->
      trimmed_render content hs row = content).
Proof.
  intros Hrow. split; [|split; [|split]].
  - rewrite renderWithRow_no_signature. now apply render_headers_trimmed.
  - apply cell_text_short.
  - intros i H. unfold cell_text. now rewrite H.
  - unfold trimmed_render. generalize 0. clear Hrow.
    induction hs as [|h hs IH]; intros i H; [reflexivity|].
    cbn [trimmed_render_from].
    rewrite spec_replace_absent by (apply H; now left).
    apply IH. intros h' Hin. apply H. now right.
Qed.

(** C3, as amended.  On a template made of literal text and
    placeholders, where the literal text, the placeholder names, the
    trimmed headers and the cell texts hold no parenthesis and the cell
    texts no dollar sign, the output of [renderWithRow] holds no placeholder of a header of the
    list, it still holds every placeholder of the template that names no
    header, and rendering it again with the same headers and row returns
    it unchanged. *)
Theorem render_twice (ts : list token) (hs row : list value) :
  Forall token_paren_free ts ->
  Forall (fun h => paren_free (header_key h)) hs ->
  (forall j, j < length hs -> plain_text (cell_text row j)) ->
  exists out,
    renderWithRow (template_text ts) hs row None = Some out
    /\ (forall h, In h hs -> includes (placeholder (header_key h)) out = false)
    /\ (forall k, In (Hole k) ts -> (forall h, In h hs -> header_key h <> k) ->
        includes (placeholder k) out = true)
    /\ renderWithRow out hs row None = Some out.
Proof.
  intros Hts Hhs Hrow. exists (filled_text hs row ts).
  pose proof (fill_token_paren_free hs row ts Hts Hrow) as Hts'.
  split; [now apply render_plain_template|]. split; [|split].
  - intros h Hin.
    destruct (includes (placeholder (header_key h)) (filled_text hs row ts)) eqn:E;
      [|reflexivity].
    exfalso. unfold filled_text in E.
    apply includes_template in E;
      [|now apply (proj1 (List.Forall_forall _ _) Hhs)|assumption].
    apply in_map_iff in E as ([s|k] & E & _); cbn in E.
    + discriminate.
    + destruct (lookup_key hs 0 row k) eqn:El; [discriminate|].
      injection E as ->.
      now apply (proj1 (lookup_key_none _ _ _ _) El h Hin).
  - intros k Hin Habs. unfold filled_text.
    assert (Hin' : In (Hole k) (map (fill_token hs row) ts)).
    { apply in_map_iff. exists (Hole k). split; [|assumption].
      cbn. now rewrite (proj2 (lookup_key_none hs 0 row k) Habs). }
    apply template_text_split in Hin' as (a & b & ->). apply includes_mid.
  - unfold filled_text at 1.
    rewrite (render_plain_template _ hs row Hts' Hhs Hrow).
    unfold filled_text. rewrite map_map. f_equal. f_equal.
    apply map_ext. intros t. apply fill_token_idem.
Qed.

Lemma no_char_by_scan (c : ascii) (s : str) :
  existsb (Ascii.eqb c) s = false -> no_char c s.
Proof.
  intros H Hin. apply Bool.not_true_iff_false in H. apply H.
  apply existsb_exists. exists c. split; [assumption|apply Ascii.eqb_refl].
Qed.

Ltac solve_chars :=
  repeat match goal with
         | |- Forall _ [] => apply List.Forall_nil
         | |- Forall _ (_ :: _) => apply List.Forall_cons
         | |- token_paren_free _ => cbn [token_paren_free]
         | |- paren_free _ => split
         | |- plain_text _ => split
         | |- no_char _ _ => apply no_char_by_scan; vm_compute; reflexivity
         end.

Lemma render_is_trimmed_replacement_witness :
  renderWithRow (lit "Hi ((Name)) (see below), ((Zip))")
    [VStr (lit " Name "); VStr (lit "Email")] [VStr (lit "Ann")] None
  = Some (lit "Hi Ann (see below), ((Zip))").
Proof.
  refine (proj1 (render_is_trimmed_replacement
            (lit "Hi ((Name)) (see below), ((Zip))")
            [VStr (lit " Name "); VStr (lit "Email")] [VStr (lit "Ann")] _)).
  intros [|[|j]] Hj; [solve_chars | solve_chars | cbn in Hj; lia].
Defined.

(** C2, as stated, fails: a header with a leading space is trimmed
    before it is matched, so the placeholder holding the header text as
    it is stays in the output, where the spec's rendering replaces it. *)
Lemma render_verbatim_header_counterexample :
  renderWithRow (lit "Hi (( Name))") [VStr (lit " Name")] [VStr (lit "Ann")]
    None
  = Some (lit "Hi (( Name))")
  /\ spec_render (lit "Hi (( Name))") [VStr (lit " Name")] [VStr (lit "Ann")]
     = lit "Hi Ann"
  /\ renderWithRow (lit "Hi (( Name))") [VStr (lit " Name")]
       [VStr (lit "Ann")] None
     <> Some (spec_render (lit "Hi (( Name))") [VStr (lit " Name")]
                [VStr (lit "Ann")]).
Proof. repeat split. discriminate. Qed.

Lemma render_twice_witness :
  exists out,
    renderWithRow
      (template_text [Lit (lit "Hi "); Hole (lit "Name"); Lit (lit ", ");
                      Hole (lit "Zip")])
      [VStr (lit " Name "); VStr (lit "Email")] [VStr (lit "Ann")] None
    = Some out
    /\ renderWithRow out [VStr (lit " Name "); VStr (lit "Email")]
         [VStr (lit "Ann")] None = Some out.
Proof.
  destruct (render_twice
              [Lit (lit "Hi "); Hole (lit "Name"); Lit (lit ", ");
               Hole (lit "Zip")]
              [VStr (lit " Name "); VStr (lit "Email")] [VStr (lit "Ann")])
    as (out & H1 & _ & _ & H2).
  - solve_chars.
  - solve_chars.
  - intros [|[|j]] Hj; [solve_chars | solve_chars | cbn in Hj; lia].
  - exists out. split; assumption.
Defined.

(** C3, as stated, fails: the cell of a present header may itself hold
    the placeholder, which is then in the output, and a second pass
    replaces it again. *)
Lemma render_twice_counterexample :
  renderWithRow (lit "Hi ((Name))") [VStr (lit "Name")]
    [VStr (lit "((Name))!")] None
  = Some (lit "Hi ((Name))!")
  /\ not_nullish (index [VStr (lit "((Name))!")] 0) = true
  /\ includes (placeholder (header_key (VStr (lit "Name"))))
       (lit "Hi ((Name))!") = true
  /\ renderWithRow (lit "Hi ((Name))!") [VStr (lit "Name")]
       [VStr (lit "((Name))!")] None
     = Some (lit "Hi ((Name))!!")
  /\ renderWithRow (lit "Hi ((Name))!") [VStr (lit "Name")]
       [VStr (lit "((Name))!")] None
     <> Some (lit "Hi ((Name))!").
Proof. repeat split. discriminate. Qed.

End RenderFacts.

(** ** Session manager *)

Module CredentialsFacts.
Import Js Credentials.

Lemma find_localhost_first (uris : list value) :
  match find_localhost uris with
  | Returned (Some u) =>
      exists pre post, uris = pre ++ VStr u :: post /\ is_localhost u = true
                       /\ forall v, In v pre -> other_string v
  | Returned None => forall v, In v uris -> other_string v
  | Thrown _ => True
  end.
Proof.
  induction uris as [|v uris IH]; [intros ? []|].
  destruct v as [| |b|z|s]; cbn [find_localhost]; try exact I.
  destruct (is_localhost s) eqn:E.
  - exists [], uris. repeat split; [assumption|intros ? []].
  - destruct (find_localhost uris) as [[u|]|e]; [| |exact I].
    + destruct IH as (pre & post & -> & Hu & Hpre).
      exists (VStr s :: pre), post. repeat split; [assumption|].
      intros v [<-|Hv]; [now exists s|auto].
    + intros v [<-|Hv]; [now exists s|auto].
Qed.

Lemma some_localhost_any (uris : list value) :
  match some_localhost uris with
  | Returned true => exists u, In (VStr u) uris /\ is_localhost u = true
  | Returned false => forall v, In v uris -> other_string v
  | Thrown _ => True
  end.
Proof.
  induction uris as [|v uris IH]; [intros ? []|].
  destruct v as [| |b|z|s]; cbn [some_localhost]; try exact I.
  destruct (is_localhost s) eqn:E.
  - exists s. split; [now left|assumption].
  - destruct (some_localhost uris) as [[|]|e]; [| |exact I].
    + destruct IH as (u & Hin & Hu). exists u. split; [now right|assumption].
    + intros v [<-|Hv]; [now exists s|auto].
Qed.

(** Both scans return exactly when no element that is not a string comes
    before the first URI starting with [http://localhost]. *)
Lemma find_localhost_outcome (uris : list value) :
  match find_localhost uris with
  | Returned _ => strings_until_localhost uris
  | Thrown _ => ~ strings_until_localhost uris
  end.
Proof.
  induction uris as [|v uris IH]; [exact I|].
  destruct v as [| |b|z|s]; cbn [find_localhost strings_until_localhost];
    try (intros []).
  destruct (is_localhost s); [now left|].
  destruct (find_localhost uris); [now right|].
  intros [H|H]; [discriminate|auto].
Qed.

Lemma some_localhost_outcome (uris : list value) :
  match some_localhost uris with
  | Returned _ => strings_until_localhost uris
  | Thrown _ => ~ strings_until_localhost uris
  end.
Proof.
  induction uris as [|v uris IH]; [exact I|].
  destruct v as [| |b|z|s]; cbn [some_localhost strings_until_localhost];
    try (intros []).
  destruct (is_localhost s); [now left|].
  destruct (some_localhost uris); [now right|].
  intros [H|H]; [discriminate|auto].
Qed.

Lemma normalize_selected (doc : document) (sh : shape) (c : creds) :
  has_shape doc sh c ->
  (truthy (client_id c) && truthy (client_secret c) = false ->
   exists msg, normalizeCredentials (Some doc) = Thrown msg
               /\ startsWith (lit "Missing client_id/client_secret") msg = true)
  /\ (truthy (client_id c) && truthy (client_secret c) = true ->
      (uris_readable c ->
       exists n, normalizeCredentials (Some doc) = Returned n
                 /\ n_client_id n = client_id c
                 /\ n_client_secret n = client_secret c)
      /\ (~ uris_readable c ->
          InvalidCredentials (normalizeCredentials (Some doc)))).
Proof.
  intros Hsh. unfold normalizeCredentials, uris_readable.
  destruct sh; cbn in Hsh.
  - rewrite Hsh.
    destruct (truthy (client_id c)), (truthy (client_secret c)); cbn;
      split; try discriminate;
      try (intros _; eexists; split; reflexivity).
    intros _. destruct (redirect_uris c) as [uris|].
    + pose proof (find_localhost_outcome uris) as H.
      destruct (find_localhost uris) as [[u|]|e]; split;
        try (intros _; eexists; repeat split; fail);
        try (intros Hn; contradiction); intros _; exact I.
    + split; [intros _; eexists; repeat split|intros Hn; now destruct Hn].
  - destruct Hsh as [-> ->].
    destruct (truthy (client_id c)), (truthy (client_secret c)); cbn;
      split; try discriminate;
      try (intros _; eexists; split; reflexivity).
    intros _. destruct (redirect_uris c) as [uris|].
    + pose proof (some_localhost_outcome uris) as H.
      destruct (some_localhost uris) as [r|e]; split;
        try (intros _; eexists; repeat split; fail);
        try (intros Hn; contradiction); intros _; exact I.
    + split; [intros _; eexists; repeat split|intros Hn; now destruct Hn].
  - destruct Hsh as (-> & -> & <-).
    destruct (truthy (client_id (flat doc))),
      (truthy (client_secret (flat doc))); cbn;
      split; try discriminate;
      try (intros _; eexists; split; reflexivity).
    intros _. destruct (redirect_uris (flat doc)) as [uris|].
    + pose proof (some_localhost_outcome uris) as H.
      destruct (some_localhost uris) as [r|e]; split;
        try (intros _; eexists; repeat split; fail);
        try (intros Hn; contradiction); intros _; exact I.
    + split; [intros _; eexists; repeat split|intros Hn; now destruct Hn].
Qed.

(** C4, as amended.  For a credential document of any of the three
    shapes, [normalizeCredentials] throws exactly when the credential
    object lacks [client_id] or [client_secret] (the field is absent, null
    or empty) or its [redirect_uris] array holds an element that is not a
    string before the first URI starting with [http://localhost]; a
    missing field is reported by the error
    [Missing client_id/client_secret]; when both fields are carried and
    the redirect URIs are readable it returns credentials with the same
    [client_id] and [client_secret]. *)
Theorem normalize_requires_id_secret_and_uris (doc : document) (sh : shape)
  (c : creds) :
  has_shape doc sh c ->
  (InvalidCredentials (normalizeCredentials (Some doc))
   <-> ~ carries (client_id c) \/ ~ carries (client_secret c)
       \/ ~ uris_readable c)
  /\ (~ carries (client_id c) \/ ~ carries (client_secret c) ->
      exists msg, normalizeCredentials (Some doc) = Thrown msg
                  /\ startsWith (lit "Missing client_id/client_secret") msg
                     = true)
  /\ (carries (client_id c) -> carries (client_secret c) ->
      uris_readable c ->
      exists n, normalizeCredentials (Some doc) = Returned n
                /\ n_client_id n = client_id c
                /\ n_client_secret n = client_secret c).
Proof.
  intros Hsh. destruct (normalize_selected doc sh c Hsh) as [Hbad Hgood].
  unfold carries.
  assert (Hmissing : ~ truthy (client_id c) = true
                     \/ ~ truthy (client_secret c) = true ->
                     truthy (client_id c) && truthy (client_secret c) = false).
  { intros H.
    destruct (truthy (client_id c)), (truthy (client_secret c));
      try reflexivity.
    destruct H as [H|H]; now destruct H. }
  split; [|split].
  - split.
    + intros Hinv.
      destruct (truthy (client_id c)) eqn:E1; [|left; discriminate].
      destruct (truthy (client_secret c)) eqn:E2; [|right; left; discriminate].
      right; right. intros Hr.
      destruct (proj1 (Hgood eq_refl) Hr) as (n & Hn & _).
      rewrite Hn in Hinv. destruct Hinv.
    + intros H.
      destruct (truthy (client_id c) && truthy (client_secret c)) eqn:E.
      * apply andb_prop in E as [E1 E2].
        destruct H as [H|[H|H]]; [now destruct H|now destruct H|].
        now apply Hgood.
      * destruct (Hbad eq_refl) as (msg & -> & _). exact I.
  - intros H. apply Hbad. now apply Hmissing.
  - intros H1 H2 Hr. apply Hgood; [now rewrite H1, H2|assumption].
Qed.

Lemma normalize_requires_id_secret_and_uris_witness :
  exists n,
    normalizeCredentials
      (Some {| web := None;
               installed :=
                 Some {| client_id := VStr (lit "id-1");
                         client_secret := VStr (lit "s3cret");
                         redirect_uris :=
                           Some [VStr (lit "http://localhost"); VNull] |};
               flat := {| client_id := VUndefined; client_secret := VUndefined;
                          redirect_uris := None |} |})
    = Returned n
    /\ n_client_id n = VStr (lit "id-1")
    /\ n_client_secret n = VStr (lit "s3cret").
Proof.
  refine (proj2 (proj2 (normalize_requires_id_secret_and_uris
            {| web := None;
               installed :=
                 Some {| client_id := VStr (lit "id-1");
                         client_secret := VStr (lit "s3cret");
                         redirect_uris :=
                           Some [VStr (lit "http://localhost"); VNull] |};
               flat := {| client_id := VUndefined; client_secret := VUndefined;
                          redirect_uris := None |} |}
            InstalledShape
            {| client_id := VStr (lit "id-1");
               client_secret := VStr (lit "s3cret");
               redirect_uris :=
                 Some [VStr (lit "http://localhost"); VNull] |} _)) _ _ _).
  - split; reflexivity.
  - reflexivity.
  - reflexivity.
  - left. reflexivity.
Defined.

(** A document that carries both [client_id] and [client_secret], and is
    rejected all the same: its one redirect URI is the number [123], on
    which [u.startsWith] is not a function. *)
Lemma normalize_rejects_numeric_uri_counterexample :
  let c := {| client_id := VStr (lit "id-1");
              client_secret := VStr (lit "s3cret");
              redirect_uris := Some [VNum 123] |} in
  let doc := {| web := None; installed := Some c;
                flat := {| client_id := VUndefined;
                           client_secret := VUndefined;
                           redirect_uris := None |} |} in
  has_shape doc InstalledShape c
  /\ carries (client_id c) /\ carries (client_secret c)
  /\ normalizeCredentials (Some doc)
     = Thrown (lit "u.startsWith is not a function")
  /\ ~ (InvalidCredentials (normalizeCredentials (Some doc))
        <-> ~ carries (client_id c) \/ ~ carries (client_secret c)).
Proof.
  cbv zeta. split; [split; reflexivity|].
  split; [reflexivity|]. split; [reflexivity|]. split; [reflexivity|].
  intros [H _]. destruct (H I) as [Hc|Hc]; apply Hc; reflexivity.
Qed.

End CredentialsFacts.

(** ** Message builder *)

Module MessageFacts.
Import Js JsFacts Render RenderFacts Message.

(** *** Counting occurrences across a concatenation *)

Lemma startsWith_sep (m a b : str) (c : ascii) :
  no_char c m -> startsWith m (a ++ c :: b) = startsWith m a.
Proof.
  revert a. induction m as [|x m IH]; intros a Hc; [now destruct a|].
  apply no_char_cons in Hc as [Hx Hm].
  destruct a as [|y a]; cbn [app startsWith].
  - apply Ascii.eqb_neq in Hx. rewrite Ascii.eqb_sym. now rewrite Hx.
  - now rewrite IH.
Qed.

Lemma occurrences_sep (m a b : str) (c : ascii) :
  m <> [] -> no_char c m ->
  occurrences m (a ++ c :: b) = occurrences m a + occurrences m b.
Proof.
  intros Hne Hc. induction a as [|y a IH].
  - cbn [app occurrences]. destruct m as [|x m]; [congruence|].
    apply no_char_cons in Hc as [Hx _].
    rewrite startsWith_head_neq by congruence. reflexivity.
  - change ((y :: a) ++ c :: b) with (y :: a ++ c :: b).
    cbn [occurrences]. rewrite IH.
    change (y :: a ++ c :: b) with ((y :: a) ++ c :: b).
    rewrite startsWith_sep by assumption. lia.
Qed.

Lemma startsWith_borderless (m f s : str) :
  ((length f <? length m)%nat && startsWith f m) = false ->
  startsWith m (f ++ s) = startsWith m f.
Proof.
  revert f. induction m as [|x m IH]; intros f H; [now destruct f|].
  destruct f as [|y f]; [discriminate|].
  cbn [app startsWith]. destruct (Ascii.eqb x y) eqn:E; [|reflexivity].
  cbn [andb]. apply IH.
  cbn [length startsWith] in H. rewrite Ascii.eqb_sym, E in H.
  exact H.
Qed.

Lemma occurrences_fixed (m f s : str) (n : nat) :
  borderless m f = true -> occurrences m f = n ->
  occurrences m (f ++ s) = n + occurrences m s.
Proof.
  intros Hb <-. induction f as [|y f IH]; [reflexivity|].
  cbn [borderless] in Hb. apply andb_true_iff in Hb as [H1 H2].
  apply negb_true_iff in H1.
  change ((y :: f) ++ s) with (y :: f ++ s). cbn [occurrences].
  rewrite (IH H2).
  change (y :: f ++ s) with ((y :: f) ++ s).
  rewrite startsWith_borderless by assumption. lia.
Qed.

Lemma head_outside_inv (m f : str) :
  head_outside m f = true -> exists c f', f = c :: f' /\ no_char c m.
Proof.
  destruct f as [|c f']; [discriminate|]. cbn. intros H.
  exists c, f'. split; [reflexivity|].
  apply no_char_by_scan. now apply negb_true_iff.
Qed.

(** A text free of [m], followed by a fixed text whose first character
    is not in [m]. *)
Lemma occurrences_field (m x f s : str) :
  m <> [] -> occurrences m x = 0 -> head_outside m f = true ->
  occurrences m (x ++ f ++ s) = occurrences m (f ++ s).
Proof.
  intros Hne Hx Hf. apply head_outside_inv in Hf as (c & f' & -> & Hc).
  change ((c :: f') ++ s) with (c :: f' ++ s).
  rewrite occurrences_sep by assumption. rewrite Hx.
  cbn [occurrences plus]. destruct m as [|y m]; [congruence|].
  apply no_char_cons in Hc as [Hy _].
  rewrite startsWith_head_neq by congruence. reflexivity.
Qed.

(** A text without the first character of [m]. *)
Lemma occurrences_no_head (c : ascii) (m a s : str) :
  no_char c a -> occurrences (c :: m) (a ++ s) = occurrences (c :: m) s.
Proof.
  induction a as [|y a IH]; intros H; [reflexivity|].
  apply no_char_cons in H as [Hy Ha].
  change ((y :: a) ++ s) with (y :: a ++ s). cbn [occurrences].
  rewrite startsWith_head_neq by assumption. now rewrite IH.
Qed.

Lemma startsWith_In (m s : str) (c : ascii) :
  startsWith m s = true -> In c m -> In c s.
Proof.
  intros H Hin. apply startsWith_inv in H as [r ->].
  apply in_or_app. now left.
Qed.

(** A text without some character of [m]. *)
Lemma occurrences_missing_char (c : ascii) (m s : str) :
  In c m -> no_char c s -> occurrences m s = 0.
Proof.
  intros Hin. induction s as [|y s IH]; intros H; [reflexivity|].
  cbn [occurrences].
  destruct (startsWith m (y :: s)) eqn:E.
  - exfalso. apply H. eapply startsWith_In; eassumption.
  - apply no_char_cons in H as [_ Hs]. now rewrite IH.
Qed.

(** *** The encoded attachment data *)

Lemma base64_digit_alphabet (n : N) : In (base64_digit n) base64_alphabet.
Proof.
  unfold base64_digit.
  destruct (Nat.lt_ge_cases (N.to_nat n) (length base64_alphabet)) as [H|H].
  - now apply nth_In.
  - rewrite nth_overflow by assumption. vm_compute. now left.
Qed.

Lemma base64_of_chars (d : list N) : Forall base64_char (base64_of d).
Proof.
  assert (Hd : forall n, base64_char (base64_digit n))
    by (intros n; left; apply base64_digit_alphabet).
  assert (He : base64_char "=") by now right.
  assert (H : forall k d, length d <= k -> Forall base64_char (base64_of d)).
  { induction k as [|k IH]; intros [|a [|b [|c d']]] Hk; cbn [base64_of];
      cbn [length] in Hk; try lia;
      repeat (apply List.Forall_cons; auto); try constructor.
    apply IH. lia. }
  now apply (H (length d)).
Qed.

Lemma wrap_from_chars (P : ascii -> Prop) (n : nat) (s : str) :
  P CR -> P LF -> Forall P s -> Forall P (wrap_from n s).
Proof.
  intros HCR HLF Hs. revert n.
  induction Hs as [|c s Hc Hs IH]; intros n; cbn [wrap_from].
  - destruct n; repeat constructor; assumption.
  - destruct (is_line_terminator c).
    + destruct n; cbn [app CRLF]; repeat (apply List.Forall_cons; auto).
    + destruct (n =? 76)%nat; cbn [app CRLF];
        repeat (apply List.Forall_cons; auto).
Qed.

Lemma encoded_data_no_hyphen (d : list Byte.byte) :
  no_char "-" (wrap76 (base64 d)).
Proof.
  unfold wrap76, base64.
  assert (H : Forall (fun c => c <> "-")
                (wrap_from 0 (base64_of (map Byte.to_N d)))).
  { apply wrap_from_chars; [discriminate|discriminate|].
    eapply List.Forall_impl; [|apply base64_of_chars].
    intros c [Hc| ->] E; [|discriminate]. subst c.
    revert Hc. apply no_char_by_scan. vm_compute. reflexivity. }
  intros Hin. now apply (proj1 (List.Forall_forall _ _) H "-" Hin).
Qed.

(** *** The message as lines *)

Lemma lines_text_app (a b : list str) :
  lines_text (a ++ b) = lines_text a ++ lines_text b.
Proof. apply flat_map_app. Qed.

Lemma join_lines (l : list str) :
  l <> [] -> join CRLF l ++ CRLF = lines_text l.
Proof.
  induction l as [|x l IH]; [congruence|]. intros _.
  destruct l as [|y l].
  - cbn. now rewrite app_nil_r.
  - change (join CRLF (x :: y :: l)) with (x ++ CRLF ++ join CRLF (y :: l)).
    change (lines_text (x :: y :: l)) with ((x ++ CRLF) ++ lines_text (y :: l)).
    rewrite <- IH by discriminate. now rewrite <- !app_assoc.
Qed.

Lemma occurrences_lines (m : str) (lines : list str) (rest : str) :
  m <> [] -> no_char CR m -> no_char LF m ->
  occurrences m (lines_text lines ++ rest)
  = list_sum (map (occurrences m) lines) + occurrences m rest.
Proof.
  intros Hne HCR HLF. induction lines as [|l lines IH]; [reflexivity|].
  change (lines_text (l :: lines)) with ((l ++ CRLF) ++ lines_text lines).
  rewrite <- !app_assoc. unfold CRLF at 1. cbn [app].
  rewrite occurrences_sep by assumption.
  change (LF :: lines_text lines ++ rest)
    with ([] ++ LF :: lines_text lines ++ rest).
  rewrite occurrences_sep by assumption.
  rewrite IH.
  change (list_sum (map (occurrences m) (l :: lines)))
    with (occurrences m l + list_sum (map (occurrences m) lines)).
  cbn [occurrences]. lia.
Qed.

Lemma attach_all_spec (pf : platform) (boundary : str) (atts : list str)
  (body : str) (failed : list str) :
  attach_all pf boundary atts body failed
  = (body ++ attachment_parts pf boundary atts, failed ++ unreadable pf atts).
Proof.
  revert body failed. induction atts as [|p atts IH]; intros body failed.
  - cbn. now rewrite !app_nil_r.
  - cbn [attach_all attachment_parts flat_map unreadable List.filter].
    unfold readable at 1. destruct (readFileSync pf p) as [data|]; rewrite IH.
    + cbn [negb]. now rewrite <- app_assoc.
    + cbn [negb app]. now rewrite <- app_assoc.
Qed.

(** The lines of one attachment part; the encoded data is the last. *)
Lemma attachment_part_lines (pf : platform) (boundary p : str)
  (data : list Byte.byte) :
  attachment_part pf boundary p data
  = lines_text
      [lit "--" ++ boundary;
       lit "Content-Type: " ++ content_type pf p ++ lit "; name="
         ++ [dquote] ++ basename pf p ++ [dquote];
       lit "Content-Transfer-Encoding: base64";
       lit "Content-Disposition: attachment; filename=" ++ [dquote]
         ++ basename pf p ++ [dquote];
       [];
       wrap76 (base64 data)].
Proof.
  unfold attachment_part, lines_text, content_type. cbn [flat_map].
  rewrite <- !app_assoc. cbn [app]. rewrite ?app_nil_r. reflexivity.
Qed.

Lemma base36_no_upper_c (rnd : str) :
  forallb is_base36 rnd = true -> no_char "C" (lit "mixed_" ++ rnd).
Proof.
  intros H. apply no_char_app. split.
  - apply no_char_by_scan. vm_compute. reflexivity.
  - intros Hin. rewrite forallb_forall in H. apply H in Hin. discriminate.
Qed.

Lemma fixed_then_free (m f x : str) :
  borderless m f = true -> occurrences m f = 0 -> free_of m x ->
  occurrences m (f ++ x) = 0.
Proof.
  intros Hb Hf Hx. rewrite (occurrences_fixed m f x 0) by assumption.
  exact Hx.
Qed.

Lemma quoted_free (m x : str) :
  m <> [] -> no_char dquote m -> free_of m x ->
  occurrences m ([dquote] ++ x ++ [dquote]) = 0.
Proof.
  intros Hne Hq Hx.
  change ([dquote] ++ x ++ [dquote]) with ([] ++ dquote :: x ++ dquote :: []).
  rewrite !occurrences_sep by assumption. rewrite Hx. reflexivity.
Qed.

(** *** Occurrences of the disposition marker *)

Lemma DM_nonempty : disposition_marker <> [].
Proof. discriminate. Qed.

Lemma DM_no_CR : no_char CR disposition_marker.
Proof. apply no_char_by_scan. vm_compute. reflexivity. Qed.

Lemma DM_no_LF : no_char LF disposition_marker.
Proof. apply no_char_by_scan. vm_compute. reflexivity. Qed.

Lemma DM_no_dquote : no_char dquote disposition_marker.
Proof. apply no_char_by_scan. vm_compute. reflexivity. Qed.

Lemma DM_head (a : str) : no_char "C" a -> occurrences disposition_marker a = 0.
Proof.
  intros H. apply (occurrences_missing_char "C"); [|assumption].
  vm_compute. now left.
Qed.

Lemma DM_boundary_line (rnd pre post : str) :
  forallb is_base36 rnd = true ->
  no_char "C" pre -> no_char "C" post ->
  occurrences disposition_marker (pre ++ (lit "mixed_" ++ rnd) ++ post) = 0.
Proof.
  intros Hr Hpre Hpost. apply DM_head.
  apply no_char_app. split; [assumption|].
  apply no_char_app. split; [now apply base36_no_upper_c|assumption].
Qed.

Lemma DM_part (pf : platform) (rnd p : str) (data : list Byte.byte)
  (rest : str) :
  forallb is_base36 rnd = true ->
  free_of disposition_marker (basename pf p) -> free_of disposition_marker (content_type pf p) ->
  occurrences disposition_marker (attachment_part pf (lit "mixed_" ++ rnd) p data ++ rest)
  = 1 + occurrences disposition_marker rest.
Proof.
  intros Hr Hb Hc.
  rewrite attachment_part_lines.
  rewrite occurrences_lines by (auto using DM_nonempty, DM_no_CR, DM_no_LF).
  f_equal. unfold list_sum. cbn [map fold_right].
  assert (H1 : occurrences disposition_marker (lit "--" ++ lit "mixed_" ++ rnd) = 0).
  { replace (lit "--" ++ lit "mixed_" ++ rnd)
      with (lit "--" ++ (lit "mixed_" ++ rnd) ++ [])
      by now rewrite app_nil_r.
    apply DM_boundary_line; [assumption| |];
      apply no_char_by_scan; reflexivity. }
  assert (H2 : occurrences disposition_marker
                 (lit "Content-Type: " ++ content_type pf p ++ lit "; name="
                  ++ [dquote] ++ basename pf p ++ [dquote]) = 0).
  { rewrite (occurrences_fixed disposition_marker (lit "Content-Type: ") _ 0)
      by (vm_compute; reflexivity).
    rewrite occurrences_field
      by (first [exact DM_nonempty | assumption | vm_compute; reflexivity]).
    rewrite (occurrences_fixed disposition_marker (lit "; name=") _ 0)
      by (vm_compute; reflexivity).
    apply quoted_free; auto using DM_nonempty, DM_no_dquote. }
  assert (H3 : occurrences disposition_marker (lit "Content-Transfer-Encoding: base64") = 0)
    by (vm_compute; reflexivity).
  assert (H4 : occurrences disposition_marker
                 (lit "Content-Disposition: attachment; filename="
                  ++ [dquote] ++ basename pf p ++ [dquote]) = 1).
  { rewrite (occurrences_fixed disposition_marker
               (lit "Content-Disposition: attachment; filename=") _ 1)
      by (vm_compute; reflexivity).
    rewrite quoted_free; auto using DM_nonempty, DM_no_dquote. }
  assert (H5 : occurrences disposition_marker (wrap76 (base64 data)) = 0).
  { apply (occurrences_missing_char "-"); [|apply encoded_data_no_hyphen].
    vm_compute. tauto. }
  rewrite H1, H2, H3, H4, H5. reflexivity.
Qed.

Lemma DM_parts (pf : platform) (rnd : str) (atts : list str) (rest : str) :
  forallb is_base36 rnd = true ->
  Forall (fun p => free_of disposition_marker (basename pf p)
                   /\ free_of disposition_marker (content_type pf p)) atts ->
  occurrences disposition_marker (attachment_parts pf (lit "mixed_" ++ rnd) atts ++ rest)
  = length (List.filter (readable pf) atts) + occurrences disposition_marker rest.
Proof.
  intros Hr Hatts. induction Hatts as [|p atts [Hb Hc] Hatts IH];
    [reflexivity|].
  cbn [attachment_parts flat_map List.filter]. unfold readable at 1.
  destruct (readFileSync pf p) as [data|].
  - rewrite <- app_assoc. rewrite DM_part by assumption.
    fold (attachment_parts pf (lit "mixed_" ++ rnd) atts).
    rewrite IH. reflexivity.
  - cbn [app]. apply IH.
Qed.

Lemma DM_header_lines (m : email) :
  free_of disposition_marker (toStr (from m)) -> free_of disposition_marker (toStr (to m)) ->
  free_of disposition_marker (toStr (subject m)) ->
  list_sum (map (occurrences disposition_marker)
    ((if truthy (from m) then [lit "From: " ++ toStr (from m)] else [])
     ++ [lit "To: " ++ toStr (to m)]
     ++ [lit "Subject: " ++ toStr (subject m)]
     ++ [lit "MIME-Version: 1.0"])) = 0.
Proof.
  intros Hf Ht Hs.
  assert (H1 : occurrences disposition_marker (lit "From: " ++ toStr (from m)) = 0)
    by (apply fixed_then_free; [reflexivity|reflexivity|assumption]).
  assert (H2 : occurrences disposition_marker (lit "To: " ++ toStr (to m)) = 0)
    by (apply fixed_then_free; [reflexivity|reflexivity|assumption]).
  assert (H3 : occurrences disposition_marker (lit "Subject: " ++ toStr (subject m)) = 0)
    by (apply fixed_then_free; [reflexivity|reflexivity|assumption]).
  assert (H4 : occurrences disposition_marker (lit "MIME-Version: 1.0") = 0) by reflexivity.
  destruct (truthy (from m)); unfold list_sum; cbn [app map fold_right];
    rewrite ?H1, H2, H3, H4; reflexivity.
Qed.

Lemma DM_count (pf : platform) (rnd : str) (m : email) :
  forallb is_base36 rnd = true ->
  free_of disposition_marker (toStr (from m)) -> free_of disposition_marker (toStr (to m)) ->
  free_of disposition_marker (toStr (subject m)) -> free_of disposition_marker (text_or_empty (text m)) ->
  Forall (fun p => free_of disposition_marker (basename pf p)
                   /\ free_of disposition_marker (content_type pf p)) (attachments m) ->
  occurrences disposition_marker (fst (buildRawEmail pf rnd m))
  = length (List.filter (readable pf) (attachments m)).
Proof.
  intros Hr Hf Ht Hs Hx Hatts.
  pose proof (DM_header_lines m Hf Ht Hs) as Hh.
  unfold buildRawEmail.
  set (hdrs := (if truthy (from m) then [lit "From: " ++ toStr (from m)] else [])
     ++ [lit "To: " ++ toStr (to m)]
     ++ [lit "Subject: " ++ toStr (subject m)]
     ++ [lit "MIME-Version: 1.0"]) in *.
  assert (Hsum : forall a b, list_sum (map (occurrences disposition_marker) (a ++ b))
            = list_sum (map (occurrences disposition_marker) a)
              + list_sum (map (occurrences disposition_marker) b))
    by (intros; now rewrite map_app, list_sum_app).
  destruct (attachments m) as [|p atts] eqn:Ea.
  - cbn [fst List.filter length].
    rewrite (app_assoc (join CRLF _) CRLF).
    rewrite join_lines by (subst hdrs; destruct (truthy (from m)); discriminate).
    change (CRLF ++ text_or_empty (text m))
      with (lines_text [[]] ++ text_or_empty (text m)).
    rewrite app_assoc, <- lines_text_app.
    rewrite occurrences_lines by (auto using DM_nonempty, DM_no_CR, DM_no_LF).
    rewrite !Hsum, Hh, Hx. reflexivity.
  - rewrite attach_all_spec. cbn [fst].
    rewrite (app_assoc (join CRLF _) CRLF).
    rewrite join_lines by (subst hdrs; destruct (truthy (from m)); discriminate).
    set (b := lit "mixed_" ++ rnd).
    change (lit "--" ++ b ++ CRLF
            ++ lit "Content-Type: text/plain; charset=" ++ [dquote]
            ++ lit "UTF-8" ++ [dquote] ++ CRLF
            ++ lit "Content-Transfer-Encoding: 7bit" ++ CRLF ++ CRLF
            ++ text_or_empty (text m) ++ CRLF)
      with (lit "--" ++ b ++ CRLF
            ++ (lit "Content-Type: text/plain; charset=" ++ [dquote]
                ++ lit "UTF-8" ++ [dquote]) ++ CRLF
            ++ lit "Content-Transfer-Encoding: 7bit" ++ CRLF ++ [] ++ CRLF
            ++ text_or_empty (text m) ++ CRLF ++ []).
    replace (lit "--" ++ b ++ CRLF
            ++ (lit "Content-Type: text/plain; charset=" ++ [dquote]
                ++ lit "UTF-8" ++ [dquote]) ++ CRLF
            ++ lit "Content-Transfer-Encoding: 7bit" ++ CRLF ++ [] ++ CRLF
            ++ text_or_empty (text m) ++ CRLF ++ [])
      with (lines_text
              [lit "--" ++ b;
               lit "Content-Type: text/plain; charset=" ++ [dquote]
                 ++ lit "UTF-8" ++ [dquote];
               lit "Content-Transfer-Encoding: 7bit";
               [];
               text_or_empty (text m)])
      by (unfold lines_text; cbn [flat_map]; now rewrite <- !app_assoc).
    replace (lit "--" ++ b ++ lit "--" ++ CRLF)
      with (lines_text [lit "--" ++ b ++ lit "--"])
      by (unfold lines_text; cbn [flat_map];
          now rewrite app_nil_r, <- !app_assoc).
    change (CRLF ++ ?x) with (lines_text [[]] ++ x).
    rewrite app_assoc, <- lines_text_app.
    rewrite <- !app_assoc.
    rewrite occurrences_lines by (auto using DM_nonempty, DM_no_CR, DM_no_LF).
    rewrite occurrences_lines by (auto using DM_nonempty, DM_no_CR, DM_no_LF).
    subst b. rewrite <- Ea in *. rewrite DM_parts by assumption.
    set (b := lit "mixed_" ++ rnd).
    rewrite <- (app_nil_r (lines_text [lit "--" ++ b ++ lit "--"])).
    rewrite occurrences_lines by (auto using DM_nonempty, DM_no_CR, DM_no_LF).
    rewrite !Hsum, Hh.
    assert (H1 : occurrences disposition_marker (lit "--" ++ b) = 0).
    { subst b. replace (lit "--" ++ lit "mixed_" ++ rnd)
        with (lit "--" ++ (lit "mixed_" ++ rnd) ++ [])
        by now rewrite app_nil_r.
      apply DM_boundary_line; [assumption| |];
        apply no_char_by_scan; reflexivity. }
    assert (H2 : occurrences disposition_marker (lit "--" ++ b ++ lit "--") = 0).
    { subst b. apply DM_boundary_line; [assumption| |];
        apply no_char_by_scan; reflexivity. }
    assert (H3 : occurrences disposition_marker
              (lit "Content-Type: multipart/mixed; boundary=" ++ [dquote]
               ++ b ++ [dquote]) = 0).
    { rewrite (occurrences_fixed disposition_marker
                 (lit "Content-Type: multipart/mixed; boundary=") _ 0)
        by (vm_compute; reflexivity).
      subst b. apply DM_boundary_line; [assumption| |];
        apply no_char_by_scan; reflexivity. }
    unfold list_sum. cbn [map fold_right occurrences].
    rewrite H1, H2, H3, Hx.
    change (occurrences disposition_marker (lit "Content-Type: text/plain; charset="
              ++ [dquote] ++ lit "UTF-8" ++ [dquote])) with 0.
    change (occurrences disposition_marker (lit "Content-Transfer-Encoding: 7bit")) with 0.
    lia.
Qed.

(** *** Occurrences of the boundary parameter *)

Lemma BM_plain_message (pf : platform) (rnd : str) (m : email) :
  attachments m = [] ->
  free_of boundary_marker (toStr (from m)) ->
  free_of boundary_marker (toStr (to m)) ->
  free_of boundary_marker (toStr (subject m)) ->
  free_of boundary_marker (text_or_empty (text m)) ->
  occurrences boundary_marker (fst (buildRawEmail pf rnd m)) = 0.
Proof.
  intros Ea Hf Ht Hs Hx. unfold buildRawEmail. rewrite Ea. cbn [fst].
  assert (H1 : occurrences boundary_marker (lit "From: " ++ toStr (from m)) = 0)
    by (apply fixed_then_free; [reflexivity|reflexivity|assumption]).
  assert (H2 : occurrences boundary_marker (lit "To: " ++ toStr (to m)) = 0)
    by (apply fixed_then_free; [reflexivity|reflexivity|assumption]).
  assert (H3 : occurrences boundary_marker
                 (lit "Subject: " ++ toStr (subject m)) = 0)
    by (apply fixed_then_free; [reflexivity|reflexivity|assumption]).
  rewrite (app_assoc (join CRLF _) CRLF).
  rewrite join_lines by (destruct (truthy (from m)); discriminate).
  change (CRLF ++ text_or_empty (text m))
    with (lines_text [[]] ++ text_or_empty (text m)).
  rewrite app_assoc, <- lines_text_app.
  rewrite occurrences_lines;
    [|discriminate|apply no_char_by_scan; reflexivity
     |apply no_char_by_scan; reflexivity].
  rewrite Hx.
  destruct (truthy (from m)); unfold list_sum;
    cbn [app map fold_right occurrences]; rewrite ?H1, H2, H3; reflexivity.
Qed.

(** C5, as amended.  When [from], [to], [subject] and the body text do
    not themselves hold the text [boundary=], [buildRawEmail] with no
    attachment gives a message without that text.  When the random part
    of the boundary is made of digits and lower-case letters, and
    [from], [to], [subject], the body text, the base names and the MIME
    types do not themselves hold the text
    [Content-Disposition: attachment], [buildRawEmail] with N attachment
    paths that can all be read gives a message with exactly N
    occurrences of that text. *)
Theorem build_markers (pf : platform) (rnd : str) (m : email) :
  (attachments m = [] ->
   free_of boundary_marker (toStr (from m)) ->
   free_of boundary_marker (toStr (to m)) ->
   free_of boundary_marker (toStr (subject m)) ->
   free_of boundary_marker (text_or_empty (text m)) ->
   occurrences boundary_marker (fst (buildRawEmail pf rnd m)) = 0)
  /\ (forallb is_base36 rnd = true ->
      free_of disposition_marker (toStr (from m)) ->
      free_of disposition_marker (toStr (to m)) ->
      free_of disposition_marker (toStr (subject m)) ->
      free_of disposition_marker (text_or_empty (text m)) ->
      Forall (fun p => free_of disposition_marker (basename pf p)
                       /\ free_of disposition_marker (content_type pf p))
        (attachments m) ->
      Forall (fun p => readable pf p = true) (attachments m) ->
      occurrences disposition_marker (fst (buildRawEmail pf rnd m))
      = length (attachments m)).
Proof.
  split; [apply BM_plain_message|].
  intros Hr Hf Ht Hs Hx Hatts Hread.
  rewrite DM_count by assumption. f_equal. clear Hatts.
  induction Hread as [|p atts Hp Hread IH]; [reflexivity|].
  cbn [List.filter]. rewrite Hp. f_equal. exact IH.
Qed.

Lemma build_markers_witness :
  occurrences boundary_marker
    (fst (buildRawEmail
            {| readFileSync := fun _ => Some [Byte.x68; Byte.x69];
               basename := fun p => p;
               mime_lookup := fun _ => Some (lit "text/plain") |}
            (lit "k3j2x")
            {| from := VUndefined; to := VStr (lit "ann@x.com");
               subject := VStr (lit "Hello"); text := VStr (lit "Hi Ann");
               attachments := [] |})) = 0
  /\ occurrences disposition_marker
       (fst (buildRawEmail
               {| readFileSync := fun _ => Some [Byte.x68; Byte.x69];
                  basename := fun p => p;
                  mime_lookup := fun _ => Some (lit "text/plain") |}
               (lit "k3j2x")
               {| from := VUndefined; to := VStr (lit "ann@x.com");
                  subject := VStr (lit "Hello"); text := VStr (lit "Hi Ann");
                  attachments := [lit "a.txt"; lit "b.txt"] |})) = 2.
Proof.
  split.
  - apply (proj1 (build_markers _ _ _)); reflexivity.
  - refine (proj2 (build_markers _ _ _) _ _ _ _ _ _ _); try reflexivity.
    + repeat (apply List.Forall_cons; [split; reflexivity|]).
      apply List.Forall_nil.
    + repeat (apply List.Forall_cons; [reflexivity|]). apply List.Forall_nil.
Defined.

(** C5, as stated, fails: the count is over the whole message, and a
    body text that itself holds the marker adds to it. *)
Lemma build_markers_counterexample :
  Forall (fun p =>
            readable {| readFileSync := fun _ => Some [Byte.x68; Byte.x69];
                        basename := fun p => p;
                        mime_lookup := fun _ => Some (lit "text/plain") |} p
            = true) [lit "a.txt"]
  /\ occurrences disposition_marker
       (fst (buildRawEmail
               {| readFileSync := fun _ => Some [Byte.x68; Byte.x69];
                  basename := fun p => p;
                  mime_lookup := fun _ => Some (lit "text/plain") |}
               (lit "k3j2x")
               {| from := VUndefined; to := VStr (lit "ann@x.com");
                  subject := VStr (lit "Hello");
                  text := VStr (lit "Content-Disposition: attachment");
                  attachments := [lit "a.txt"] |})) = 2.
Proof.
  split; [|vm_compute; reflexivity].
  apply List.Forall_cons; [reflexivity|apply List.Forall_nil].
Qed.

End MessageFacts.

(** ** Sheet status writer *)

Module StatusFacts.
Import Js JsFacts Trace Status.

Lemma findIndex_none {A} (f : A -> bool) (a : list A) :
  findIndex f a = None <-> (forall x, In x a -> f x = false).
Proof.
  induction a as [|x a IH]; cbn.
  - split; [intros _ ? []|reflexivity].
  - destruct (f x) eqn:E.
    + split; [discriminate|]. intros H. rewrite (H x) in E by now left.
      discriminate.
    + destruct (findIndex f a); cbn.
      * split; [discriminate|]. intros H. exfalso.
        assert (Hn : Some n = None); [|discriminate].
        apply IH. intros y Hy. apply H. now right.
      * split; [|reflexivity]. intros _ y [<-|Hy]; [assumption|].
        now apply IH.
Qed.

Lemma findIndex_some {A} (f : A -> bool) (a : list A) (i : nat) :
  findIndex f a = Some i ->
  i < length a /\ exists x, nth_error a i = Some x /\ f x = true.
Proof.
  revert i. induction a as [|x a IH]; intros i H; [discriminate|].
  cbn in H. destruct (f x) eqn:E.
  - injection H as <-. cbn. split; [lia|]. now exists x.
  - destruct (findIndex f a) as [k|]; [|discriminate].
    injection H as <-. destruct (IH k eq_refl) as (Hk & y & Hy & Hf).
    cbn. split; [lia|]. now exists y.
Qed.

Lemma findIndex_app_new {A} (f : A -> bool) (a : list A) (x : A) :
  findIndex f a = None -> f x = true ->
  findIndex f (a ++ [x]) = Some (length a).
Proof.
  intros Ha Hx. induction a as [|y a IH]; cbn.
  - now rewrite Hx.
  - cbn in Ha. destruct (f y); [discriminate|].
    destruct (findIndex f a); [discriminate|].
    now rewrite IH.
Qed.

Lemma status_header_is_status : is_status (VStr (lit "Status")) = true.
Proof. reflexivity. Qed.

Lemma ensure_found (title : str) (headers : list value) (ok : bool)
  (i : nat) :
  findIndex is_status headers = Some i ->
  ensureStatusColumn title headers ok = (headers, Z.of_nat i, []).
Proof. intros E. unfold ensureStatusColumn. now rewrite E. Qed.

Lemma ensure_absent (title : str) (headers : list value) (ok : bool) :
  findIndex is_status headers = None ->
  fst (fst (ensureStatusColumn title headers ok))
  = headers ++ [VStr (lit "Status")]
  /\ snd (fst (ensureStatusColumn title headers ok))
     = if ok then Z.of_nat (length headers) else (-1)%Z.
Proof.
  intros E. unfold ensureStatusColumn. rewrite E.
  destruct ok; cbn [fst snd]; split; try reflexivity.
  rewrite length_app. cbn [length]. lia.
Qed.

(** C6, as amended.  The first call appends ['Status'] exactly when no
    header equals ['status'] once trimmed and lower-cased, and changes
    the list in no other way; the second call changes nothing, writes
    nothing to the sheet and returns the index of the Status header.
    That index is the one returned by the first call whenever the first
    call did not fail to write the header row (it then returns -1). *)
Theorem ensureStatusColumn_twice (title title' : str) (headers : list value)
  (ok1 ok2 : bool) :
  let first := ensureStatusColumn title headers ok1 in
  let second := ensureStatusColumn title' (fst (fst first)) ok2 in
  ((forall h, In h headers -> is_status h = false) ->
   fst (fst first) = headers ++ [VStr (lit "Status")])
  /\ ((exists h, In h headers /\ is_status h = true) ->
      fst (fst first) = headers /\ snd first = [])
  /\ fst (fst second) = fst (fst first)
  /\ snd second = []
  /\ (exists i, snd (fst second) = Z.of_nat i
                /\ exists h, nth_error (fst (fst first)) i = Some h
                             /\ is_status h = true)
  /\ (snd (fst first) <> (-1)%Z -> snd (fst second) = snd (fst first)).
Proof.
  cbv zeta.
  destruct (findIndex is_status headers) as [i|] eqn:E.
  - rewrite (ensure_found title headers ok1 i E). cbn [fst snd].
    rewrite (ensure_found title' headers ok2 i E). cbn [fst snd].
    destruct (findIndex_some _ _ _ E) as (Hi & h & Hh & Hs).
    refine (conj _ (conj _ (conj _ (conj _ (conj _ _))))); try reflexivity.
    + intros H. apply findIndex_none in H. congruence.
    + intros _. split; reflexivity.
    + exists i. split; [reflexivity|]. now exists h.
  - destruct (ensure_absent title headers ok1 E) as (H1 & H2).
    pose proof (findIndex_app_new is_status headers _ E status_header_is_status)
      as E'.
    rewrite H1, H2.
    rewrite (ensure_found title' _ ok2 _ E'). cbn [fst snd].
    assert (Hnth : nth_error (headers ++ [VStr (lit "Status")]) (length headers)
                   = Some (VStr (lit "Status")))
      by (rewrite nth_error_app2, Nat.sub_diag by lia; reflexivity).
    refine (conj _ (conj _ (conj _ (conj _ (conj _ _))))); try reflexivity.
    + intros (h & Hin & Hs). rewrite (proj1 (findIndex_none _ _) E h Hin) in Hs.
      discriminate.
    + exists (length headers). split; [reflexivity|].
      now exists (VStr (lit "Status")).
    + destruct ok1; [reflexivity|]. intros H. now destruct H.
Qed.

Lemma ensureStatusColumn_twice_witness :
  fst (fst (ensureStatusColumn (lit "Sheet1")
              [VStr (lit "Name"); VStr (lit "Email")] true))
  = [VStr (lit "Name"); VStr (lit "Email")] ++ [VStr (lit "Status")]
  /\ snd (fst (ensureStatusColumn (lit "Sheet1")
                 (fst (fst (ensureStatusColumn (lit "Sheet1")
                              [VStr (lit "Name"); VStr (lit "Email")] true)))
                 true))
     = snd (fst (ensureStatusColumn (lit "Sheet1")
                   [VStr (lit "Name"); VStr (lit "Email")] true)).
Proof.
  destruct (ensureStatusColumn_twice (lit "Sheet1") (lit "Sheet1")
              [VStr (lit "Name"); VStr (lit "Email")] true true)
    as (H1 & _ & _ & _ & _ & H6).
  split.
  - apply H1. intros h [<-|[<-|[]]]; reflexivity.
  - apply H6. discriminate.
Defined.

(** C6, as stated, fails: when the header row cannot be written the
    first call returns -1, yet the header stays appended and the second
    call returns its index. *)
Lemma ensureStatusColumn_twice_counterexample :
  snd (fst (ensureStatusColumn (lit "Sheet1") [VStr (lit "Name")] false))
  = (-1)%Z
  /\ snd (fst (ensureStatusColumn (lit "Sheet1")
                 (fst (fst (ensureStatusColumn (lit "Sheet1")
                              [VStr (lit "Name")] false))) false))
     = 1%Z
  /\ snd (fst (ensureStatusColumn (lit "Sheet1")
                 (fst (fst (ensureStatusColumn (lit "Sheet1")
                              [VStr (lit "Name")] false))) false))
     <> snd (fst (ensureStatusColumn (lit "Sheet1") [VStr (lit "Name")] false)).
Proof. repeat split. discriminate. Qed.

End StatusFacts.

(** ** Campaign runner *)

Module CampaignFacts.
Import Js JsFacts Trace Status Campaign.

Lemma jitter_range (r : Z) :
  random_range r -> (0 <= jitter_of r < 2000)%Z.
Proof.
  unfold random_range, jitter_of. intros [H0 H1]. split.
  - apply Z.div_pos; lia.
  - apply Z.div_lt_upper_bound; lia.
Qed.

Lemma timeline_app (a b : list event) :
  timeline (a ++ b) = timeline a ++ timeline b.
Proof. apply List.filter_app. Qed.

Lemma timeline_logs (failed : list str) : timeline (attachment_logs failed) = [].
Proof. induction failed as [|p l IH]; [reflexivity|exact IH]. Qed.

Lemma timeline_ensure (title : str) (headers : list value) (ok : bool) :
  timeline (snd (ensureStatusColumn title headers ok)) = [].
Proof.
  unfold ensureStatusColumn.
  destruct (findIndex is_status headers); [reflexivity|].
  destruct ok; reflexivity.
Qed.

Lemma timeline_status (sc : sheet_calls) (title : value)
  (headers : list value) (i : nat) (text : str) :
  timeline (snd (fst (updateSheetStatus sc title headers i text))) = [].
Proof.
  unfold updateSheetStatus.
  assert (H : forall ev0 t,
    timeline ev0 = [] ->
    timeline (snd (fst
      (let '(headers', col, ev1) :=
         ensureStatusColumn t headers (Status.header_update_ok sc) in
       if Status.cell_update_ok sc
       then (headers',
             ev0 ++ ev1 ++ [UpdateCell (t ++ lit "!" ++ columnIndexToA1 col
                              ++ toStr (VNum (Z.of_nat i + 2))) text],
             Returned true)
       else (headers',
             ev0 ++ ev1 ++ [UpdateCell (t ++ lit "!" ++ columnIndexToA1 col
                              ++ toStr (VNum (Z.of_nat i + 2))) text;
                            Log (lit "error")
                              (lit "Sheets status update failed")],
             Returned false)))) = []).
  { intros ev0 t H0.
    pose proof (timeline_ensure t headers (Status.header_update_ok sc)) as He.
    destruct (ensureStatusColumn t headers (Status.header_update_ok sc))
      as [[headers' col] ev1]. cbn [snd] in He.
    destruct (Status.cell_update_ok sc); cbn [fst snd];
      rewrite !timeline_app, H0, He; reflexivity. }
  destruct (negb (services_ok sc)); [reflexivity|].
  destruct (truthy title).
  - now apply H.
  - destruct (first_tab sc); [now apply H|reflexivity].
Qed.

Lemma paced_send_rows (w : world) (p : params) (emailIdx : nat)
  (signature : str) (rows : list (list value)) (i : nat)
  (headers : list value) :
  (forall k, random_range (random w k)) ->
  paced (delay_or_default (delaySeconds p) * 1000)
    (timeline (fst (send_rows w p emailIdx signature rows i headers))).
Proof.
  intros Hr. revert i headers.
  induction rows as [|row rows IH]; intros i headers; [constructor|].
  cbn [send_rows].
  destruct (negb (truthy (index row emailIdx))); [apply IH|].
  destruct (Render.renderWithRow _ _ _ _) as [text|]; [|constructor].
  destruct (Message.buildRawEmail _ _ _) as [rawStr failed].
  destruct (send_result w i) as [[]|e].
  - pose proof (timeline_status
        {| services_ok := services w;
           first_tab := Returned VUndefined;
           Status.header_update_ok := header_update_ok w i;
           Status.cell_update_ok := cell_update_ok w i |}
        (if truthy (sheetTitle p) then sheetTitle p else VStr (lit "Sheet1"))
        headers i (lit "SENT")) as Hs.
    destruct (updateSheetStatus _ _ _ _ _) as [[headers' ev] r].
    cbn [fst snd] in Hs.
    specialize (IH (S i) headers').
    destruct (send_rows w p emailIdx signature rows (S i) headers')
      as [evs r']. cbn [fst] in *.
    rewrite !timeline_app, timeline_logs, Hs. cbn [app timeline List.filter is_pacing].
    apply paced_step; [apply jitter_range, Hr | exact IH].
  - cbn [fst]. rewrite timeline_app, timeline_logs. cbn. constructor.
Qed.

Lemma timeline_run (w : world) (p : params) :
  (forall k, random_range (random w k)) ->
  paced (delay_or_default (delaySeconds p) * 1000)
    (timeline (fst (executeCampaignRun w p))).
Proof.
  intros Hr. unfold executeCampaignRun.
  destruct (negb (services w)); [constructor|].
  destruct (sheet_values w) as [[|headers rows]|e]; try constructor.
  destruct (findEmailColumnIndex headers) as [emailIdx|]; [|constructor].
  assert (H : forall ev0 signature, timeline ev0 = [] ->
    paced (delay_or_default (delaySeconds p) * 1000)
      (timeline (fst
        (match send_rows w p emailIdx signature rows 0 headers with
         | (evs, Completed) =>
             (GetValues (if truthy (sheetTitle p)
                         then toStr (sheetTitle p) ++ lit "!A:Z"
                         else lit "A:Z") :: ev0 ++ evs
              ++ [Telemetry (lit "campaign_run") (length rows)], Completed)
         | (evs, r) =>
             (GetValues (if truthy (sheetTitle p)
                         then toStr (sheetTitle p) ++ lit "!A:Z"
                         else lit "A:Z") :: ev0 ++ evs, r)
         end)))).
  { intros ev0 signature H0.
    pose proof (paced_send_rows w p emailIdx signature rows 0 headers Hr) as Hp.
    destruct (send_rows w p emailIdx signature rows 0 headers) as [evs r].
    cbn [fst] in Hp.
    destruct r; cbn [fst timeline List.filter is_pacing];
      fold (timeline (ev0 ++ evs ++ [Telemetry (lit "campaign_run") (length rows)]));
      fold (timeline (ev0 ++ evs));
      rewrite !timeline_app, H0; cbn [app]; rewrite ?app_nil_r; exact Hp. }
  destruct (useSignature p).
  - destruct (primary_signature w); [now apply H|constructor].
  - now apply H.
Qed.

Lemma paced_sleeps (base : Z) (tl : list event) (ms : Z) :
  paced base tl -> In (Sleep ms) tl ->
  exists jitter, (0 <= jitter < 2000)%Z /\ ms = (base + jitter)%Z.
Proof.
  induction 1 as [|i raw|i raw j rest Hj Hp IH]; intros Hin.
  - destruct Hin.
  - destruct Hin as [Hin|[]]. discriminate.
  - destruct Hin as [Hin|[Hin|Hin]]; [discriminate| |now apply IH].
    injection Hin as <-. now exists j.
Qed.

Lemma in_timeline (e : event) (tr : list event) :
  In e tr -> is_pacing e = true -> In e (timeline tr).
Proof. intros H1 H2. apply List.filter_In. now split. Qed.

(** C7, as amended.  When [delaySeconds] is a number other than 0, the
    sends and sleeps of a run alternate: every send that succeeds is
    followed, before the next send, by exactly one sleep of
    [delaySeconds * 1000] milliseconds plus a jitter drawn from
    [0, 2000). *)
Theorem pause_between_sends (w : world) (p : params) (d : Z) :
  (forall k, random_range (random w k)) ->
  delaySeconds p = Some d -> d <> 0%Z ->
  paced (d * 1000) (timeline (fst (executeCampaignRun w p)))
  /\ (forall ms, In (Sleep ms) (fst (executeCampaignRun w p)) ->
      exists jitter, (0 <= jitter < 2000)%Z /\ ms = (d * 1000 + jitter)%Z).
Proof.
  intros Hr Hd Hne. pose proof (timeline_run w p Hr) as H.
  rewrite Hd in H. cbn [delay_or_default] in H.
  apply Z.eqb_neq in Hne. rewrite Hne in H. split; [exact H|].
  intros ms Hin. eapply paced_sleeps; [exact H|].
  now apply in_timeline.
Qed.

(** C10.  When [delaySeconds] is absent, null or 0, the run pauses as
    for a delay of 5 seconds: every send that succeeds is followed by
    one sleep of 5000 milliseconds plus a jitter drawn from [0, 2000),
    so no sleep of the run is shorter than 5000 milliseconds. *)
Theorem default_delay_is_five_seconds (w : world) (p : params) :
  (forall k, random_range (random w k)) ->
  delaySeconds p = None \/ delaySeconds p = Some 0%Z ->
  paced 5000 (timeline (fst (executeCampaignRun w p)))
  /\ (forall ms, In (Sleep ms) (fst (executeCampaignRun w p)) ->
      (5000 <= ms < 7000)%Z).
Proof.
  intros Hr Hd. pose proof (timeline_run w p Hr) as H.
  assert (Hb : (delay_or_default (delaySeconds p) * 1000 = 5000)%Z)
    by (destruct Hd as [-> | ->]; reflexivity).
  rewrite Hb in H. split; [exact H|].
  intros ms Hin.
  destruct (paced_sleeps 5000 _ ms H (in_timeline _ _ Hin eq_refl))
    as (j & Hj & ->). lia.
Qed.

Lemma sample_random_range (fails : nat -> bool) (k : nat) :
  random_range (random (Samples.world fails) k).
Proof. unfold random_range. cbn. split; [discriminate|reflexivity]. Qed.

Lemma pause_between_sends_witness :
  paced (3 * 1000)
    (timeline (fst (executeCampaignRun (Samples.world (fun _ => false))
                      (Samples.campaign (Some 3%Z))))).
Proof.
  refine (proj1 (pause_between_sends (Samples.world (fun _ => false))
                   (Samples.campaign (Some 3%Z)) 3 _ _ _)).
  - apply sample_random_range.
  - reflexivity.
  - discriminate.
Defined.

(** C7, as stated, fails for a delay of 0 seconds: the pause is then
    6000 milliseconds for a jitter of 1000, not [0 * 1000] plus a jitter
    below 2000. *)
Lemma pause_between_sends_counterexample :
  In (Sleep 6000)
    (fst (executeCampaignRun (Samples.world (fun _ => false))
            (Samples.campaign (Some 0%Z))))
  /\ ~ (exists jitter, (0 <= jitter < 2000)%Z
                       /\ (6000 = 0 * 1000 + jitter)%Z).
Proof.
  split.
  - vm_compute. tauto.
  - intros (j & Hj & E). lia.
Qed.

Lemma default_delay_is_five_seconds_witness :
  paced 5000
    (timeline (fst (executeCampaignRun (Samples.world (fun _ => false))
                      (Samples.campaign None)))).
Proof.
  refine (proj1 (default_delay_is_five_seconds (Samples.world (fun _ => false))
                   (Samples.campaign None) _ _)).
  - apply sample_random_range.
  - now left.
Defined.

(** C1: the code at the failing input.  In a run over three rows where
    the send of the second row fails, [executeCampaignRun] calls the
    provider for the first and the second row only and ends with the
    provider's error: the third row is never attempted. *)
Theorem send_failure_aborts_run :
  sent_rows (fst (executeCampaignRun (Samples.world (Nat.eqb 1))
                    (Samples.campaign (Some 1%Z)))) = [0; 1]
  /\ snd (executeCampaignRun (Samples.world (Nat.eqb 1))
            (Samples.campaign (Some 1%Z)))
     = Failed (lit "provider error").
Proof. split; vm_compute; reflexivity. Qed.

End CampaignFacts.

(** ** Scheduler *)

Module SchedulerFacts.
Import Scheduler.

Lemma disarmed_step (h : nat) (st : state) (a : action) :
  disarmed h st -> disarmed h (step st a).
Proof.
  intros (Ht & Hn & Hi). destruct a as [p start now new_id|h'|h'|jid]; cbn.
  - repeat split; cbn; [|lia|assumption].
    rewrite lookup_insert_ne by lia. assumption.
  - unfold fire. destruct (timers st !! h') as [[[jid q] ms]|] eqn:E;
      [|now repeat split].
    repeat split; cbn.
    + destruct (decide (h' = h)) as [->|Hne];
        [apply lookup_delete_eq|now rewrite lookup_delete_ne].
    + assumption.
    + rewrite in_app_iff. intros [H|[H|[]]]; [now apply Hi|].
      subst h'. congruence.
  - unfold finish. destruct (running st !! h'); now repeat split.
  - unfold cancelScheduledJob. destruct (jobs st !! jid) as [j|];
      [|now repeat split].
    repeat split; cbn; [|assumption|assumption].
    destruct (decide (timer j = h)) as [->|Hne];
      [apply lookup_delete_eq|now rewrite lookup_delete_ne].
Qed.

Lemma disarmed_exec (h : nat) (history : list action) (st : state) :
  disarmed h st -> disarmed h (exec st history).
Proof.
  revert st. induction history as [|a l IH]; intros st H; [exact H|].
  cbn. apply IH. now apply disarmed_step.
Qed.

Lemma handles_bounded_step (st : state) (a : action) :
  handles_bounded st -> handles_bounded (step st a).
Proof.
  intros (Ht & Hj & Hi). destruct a as [p start now new_id|h'|h'|jid]; cbn.
  - repeat split; cbn.
    + intros h c. destruct (decide (next_timer st = h)) as [<-|Hne].
      * lia.
      * rewrite lookup_insert_ne by assumption. intros H.
        apply Ht in H. lia.
    + intros jid j. destruct (decide (new_id = jid)) as [<-|Hne].
      * rewrite lookup_insert_eq. intros [= <-]. cbn. lia.
      * rewrite lookup_insert_ne by assumption. intros H.
        apply Hj in H. lia.
    + intros h H. apply Hi in H. lia.
  - unfold fire. destruct (timers st !! h') as [[[jid q] ms]|] eqn:E;
      [|now repeat split].
    repeat split; cbn.
    + intros h c H. apply lookup_delete_Some in H as [_ H]. eauto.
    + assumption.
    + intros h. rewrite in_app_iff. intros [H|[<-|[]]]; eauto.
  - unfold finish. destruct (running st !! h') as [jid|]; [|now repeat split].
    repeat split; cbn; try assumption.
    intros jid' j H. apply lookup_delete_Some in H as [_ H]. eauto.
  - unfold cancelScheduledJob. destruct (jobs st !! jid) as [j|];
      [|now repeat split].
    repeat split; cbn; try assumption.
    + intros h c H. apply lookup_delete_Some in H as [_ H]. eauto.
    + intros jid' j' H. apply lookup_delete_Some in H as [_ H]. eauto.
Qed.

Lemma handles_bounded_reachable (history : list action) :
  handles_bounded (exec initial history).
Proof.
  assert (H : forall st, handles_bounded st -> handles_bounded (exec st history)).
  { induction history as [|a l IH]; intros st Hst; [exact Hst|].
    cbn. apply IH. now apply handles_bounded_step. }
  apply H. repeat split; cbn; intros *; try rewrite lookup_empty;
    try discriminate. intros [].
Qed.

Lemma cancel_true_iff (st : state) (jid : string) :
  snd (cancelScheduledJob st jid) = true <-> is_Some (jobs st !! jid).
Proof.
  unfold cancelScheduledJob. destruct (jobs st !! jid); cbn.
  - split; [eauto|reflexivity].
  - split; [discriminate|]. intros [? ?]. discriminate.
Qed.

(** C8, as amended.  [cancelScheduledJob(id)] returns success exactly
    when the registry holds a job with that id, that is when the job is
    pending or its run has started and not yet ended; it then clears the
    job's timer and removes the job, and otherwise leaves everything as
    it is.  When the job was still pending, the campaign runner is never
    invoked for it, whatever happens afterwards.  Once the run of a job
    has ended the job is out of the registry and cancelling it returns
    failure. *)
Theorem cancel_scheduled_job (st : state) (jid : string) :
  (snd (cancelScheduledJob st jid) = true <-> is_Some (jobs st !! jid))
  /\ (forall j, jobs st !! jid = Some j ->
      jobs (fst (cancelScheduledJob st jid)) !! jid = None
      /\ timers (fst (cancelScheduledJob st jid)) !! timer j = None)
  /\ (jobs st !! jid = None -> fst (cancelScheduledJob st jid) = st)
  /\ (forall j future,
      handles_bounded st -> jobs st !! jid = Some j ->
      ~ In (timer j) (invoked st) ->
      ~ In (timer j) (invoked (exec (fst (cancelScheduledJob st jid)) future)))
  /\ (forall h, running st !! h = Some jid ->
      snd (cancelScheduledJob (finish st h) jid) = false).
Proof.
  refine (conj (cancel_true_iff st jid) (conj _ (conj _ (conj _ _)))).
  - intros j Hj. unfold cancelScheduledJob. rewrite Hj. cbn.
    split; apply lookup_delete_eq.
  - intros Hj. unfold cancelScheduledJob. now rewrite Hj.
  - intros j future (Ht & Hb & Hi) Hj Hn.
    apply (disarmed_exec (timer j) future). unfold cancelScheduledJob.
    rewrite Hj. repeat split; cbn; [apply lookup_delete_eq|eauto|assumption].
  - intros h Hh. unfold finish. rewrite Hh. unfold cancelScheduledJob. cbn.
    now rewrite lookup_delete_eq.
Qed.

Lemma scheduled_job :
  jobs Samples.scheduled !! Samples.job_id
  = Some {| id := Samples.job_id; startAt := 10000;
            params := Samples.campaign None; timer := 0 |}.
Proof. apply lookup_insert_eq. Qed.

Lemma cancel_scheduled_job_witness :
  snd (cancelScheduledJob Samples.scheduled Samples.job_id) = true
  /\ ~ In 0 (invoked (exec (fst (cancelScheduledJob Samples.scheduled
                                   Samples.job_id))
                        [Fire 0; Finish 0])).
Proof.
  destruct (cancel_scheduled_job Samples.scheduled Samples.job_id)
    as (H1 & _ & _ & H4 & _).
  split.
  - apply H1. rewrite scheduled_job. eauto.
  - apply (H4 _ [Fire 0; Finish 0]
             (handles_bounded_reachable
                [Schedule (Samples.campaign None) 10000 0 Samples.job_id])
             scheduled_job).
    intros [].
Defined.

(** C8, as stated, fails: a job whose timer has fired stays in the
    registry until its run ends, so cancelling it in between returns
    success although the job is no longer pending and the campaign
    runner has been invoked. *)
Lemma cancel_scheduled_job_counterexample :
  snd (cancelScheduledJob (fire Samples.scheduled 0) Samples.job_id) = true
  /\ In 0 (invoked (fire Samples.scheduled 0))
  /\ ~ pending (fire Samples.scheduled 0) Samples.job_id.
Proof.
  split; [vm_compute; reflexivity|]. split; [vm_compute; tauto|].
  intros (j & Hj & Hs).
  assert (E : jobs (fire Samples.scheduled 0) !! Samples.job_id
              = Some {| id := Samples.job_id; startAt := 10000;
                        params := Samples.campaign None; timer := 0 |})
    by (vm_compute; reflexivity).
  rewrite E in Hj. injection Hj as <-. cbn [timer] in Hs.
  assert (E' : timers (fire Samples.scheduled 0) !! 0 = None)
    by (vm_compute; reflexivity).
  rewrite E' in Hs. destruct Hs as [? ?]. discriminate.
Qed.

End SchedulerFacts.

(** ** More on the template renderer *)

Module RenderMore.
Import Js JsFacts Render RenderFacts Reference.

Lemma replace_absent (pat v s seen : str) :
  includes pat s = false -> replace_from pat v seen 0 s = s.
Proof.
  revert seen. induction s as [|c s IH]; intros seen H; [reflexivity|].
  cbn [includes] in H. apply orb_false_iff in H as [H0 H1].
  cbn [replace_from]. rewrite H0. f_equal. now apply IH.
Qed.

(** X1.  A template that holds the placeholder of no header is returned as
    it is, whatever the headers and the row are. *)
Theorem render_without_placeholders (content : str) (hs row : list value) :
  (forall h, In h hs -> includes (placeholder (header_key h)) content = false) ->
  renderWithRow content hs row None = Some content.
Proof.
  rewrite renderWithRow_no_signature. generalize 0.
  induction hs as [|h hs IH]; intros i H; [reflexivity|].
  rewrite render_headers_cons. unfold replaceAll.
  rewrite replace_absent by (apply H; now left).
  apply IH. intros h' Hin. apply H. now right.
Qed.

Lemma render_without_placeholders_witness :
  renderWithRow (lit "Dear customer, (see below)")
    [VStr (lit "Name"); VStr (lit "Email")] [VStr (lit "$&")] None
  = Some (lit "Dear customer, (see below)").
Proof.
  apply render_without_placeholders.
  intros h [<-|[<-|[]]]; reflexivity.
Defined.

Lemma strip_from_subset (b : bool) (s : str) (c : ascii) :
  In c (strip_from b s) -> In c s.
Proof.
  revert b. induction s as [|d s IH]; intros b H; [destruct H|].
  cbn [strip_from] in H. destruct b.
  - right. eapply IH, H.
  - destruct (Ascii.eqb d "<" && tag_opens s).
    + right. eapply IH, H.
    + destruct H as [->|H]; [now left|right; eapply IH, H].
Qed.

Lemma tag_opens_false_after (s : str) :
  tag_opens s = false -> tag_opens (strip_from false s) = false.
Proof.
  destruct s as [|c s]; [reflexivity|]. intros H.
  cbn [tag_opens] in H.
  destruct (Ascii.eqb c ">") eqn:E.
  - apply Ascii.eqb_eq in E. subst c. cbn [strip_from].
    change (Ascii.eqb ">" "<") with false. cbn [andb]. reflexivity.
  - cbn [negb andb] in H.
    destruct (strip_from false (c :: s)) as [|d out] eqn:Eo; [reflexivity|].
    cbn [tag_opens].
    assert (Hn : existsb (Ascii.eqb ">") (d :: out) = false).
    { apply Bool.not_true_iff_false. intros Hex.
      apply existsb_exists in Hex as (x & Hx & Hgt).
      apply Ascii.eqb_eq in Hgt. subst x.
      rewrite <- Eo in Hx. apply strip_from_subset in Hx.
      apply Bool.not_true_iff_false in H. apply H.
      apply existsb_exists. exists ">". now split. }
    rewrite Hn. apply andb_false_r.
Qed.

Lemma strip_from_tag_free (b : bool) (s : str) : tag_free (strip_from b s).
Proof.
  revert b. induction s as [|c s IH]; intros b; [exact I|].
  cbn [strip_from]. destruct b; [apply IH|].
  destruct (Ascii.eqb c "<" && tag_opens s) eqn:E; [apply IH|].
  cbn [tag_free]. split; [|apply IH].
  intros ->. change (Ascii.eqb "<" "<") with true in E. cbn [andb] in E.
  now apply tag_opens_false_after.
Qed.

Lemma strip_tag_free (s : str) : tag_free s -> strip_from false s = s.
Proof.
  induction s as [|c s IH]; intros H; [reflexivity|].
  destruct H as [H0 H]. cbn [strip_from].
  destruct (Ascii.eqb c "<") eqn:E.
  - apply Ascii.eqb_eq in E. rewrite (H0 E). cbn [andb]. f_equal. now apply IH.
  - cbn [andb]. f_equal. now apply IH.
Qed.

(** X2.  Stripping the tags of a signature leaves a text in which no [<]
    opens a tag any more, so stripping again changes nothing; a
    signature without [<] is kept as it is. *)
Theorem stripTags_settles (s : str) :
  tag_free (stripTags s)
  /\ stripTags (stripTags s) = stripTags s
  /\ (no_char "<" s -> stripTags s = s).
Proof.
  unfold stripTags. split; [apply strip_from_tag_free|]. split.
  - apply strip_tag_free, strip_from_tag_free.
  - intros H. apply strip_tag_free.
    induction s as [|c s IH]; [exact I|].
    apply no_char_cons in H as [Hc Hs]. split; [congruence|now apply IH].
Qed.

Lemma stripTags_settles_witness :
  stripTags (lit "Best regards - Ann") = lit "Best regards - Ann".
Proof.
  apply (proj2 (proj2 (stripTags_settles (lit "Best regards - Ann")))).
  apply no_char_by_scan. reflexivity.
Defined.

End RenderMore.

(** ** More on the message builder *)

Module MessageMore.
Import Js JsFacts Render RenderFacts Message MessageFacts Reference.

(** *** Line wrapping *)

Lemma wrap_from_run (n : nat) (s : str) :
  n <= 76 -> no_terminator s ->
  wrap_from n s
  = firstn (76 - n) s
    ++ (if (0 <? n + Nat.min (length s) (76 - n))%nat then CRLF else [])
    ++ wrap_from 0 (skipn (76 - n) s).
Proof.
  intros Hn Hs. revert n Hn.
  induction Hs as [|c s Hc Hs IH]; intros n Hn.
  - cbn [wrap_from length Nat.min]. rewrite firstn_nil, skipn_nil.
    cbn [wrap_from app]. rewrite Nat.add_0_r, app_nil_r.
    destruct n; reflexivity.
  - cbn [wrap_from]. rewrite Hc.
    destruct (n =? 76)%nat eqn:E.
    + apply Nat.eqb_eq in E. subst n. rewrite Nat.sub_diag.
      cbn [firstn skipn app Nat.min length].
      rewrite Nat.add_0_r. cbn [Nat.ltb Nat.leb].
      cbn [wrap_from]. rewrite Hc. reflexivity.
    + apply Nat.eqb_neq in E.
      replace (76 - n) with (S (76 - S n)) by lia.
      cbn [firstn skipn app]. f_equal.
      rewrite (IH (S n)) by lia. f_equal.
      replace (0 <? S n + Nat.min (length s) (76 - S n))%nat with true
        by (symmetry; apply Nat.ltb_lt; lia).
      replace (0 <? n + Nat.min (length (c :: s)) (S (76 - S n)))%nat with true
        by (symmetry; apply Nat.ltb_lt; cbn [length]; lia).
      reflexivity.
Qed.

Lemma no_terminator_skipn (k : nat) (s : str) :
  no_terminator s -> no_terminator (skipn k s).
Proof.
  intros H. unfold no_terminator in *. rewrite List.Forall_forall in *.
  intros c Hin. apply H. revert Hin. rewrite <- (firstn_skipn k s) at 2.
  intros Hin. apply in_or_app. now right.
Qed.

Lemma wrap_chunks_from (fuel : nat) (s : str) :
  length s <= fuel -> no_terminator s ->
  wrap_from 0 s = lines_text (chunks_from fuel s)
  /\ concat (chunks_from fuel s) = s
  /\ Forall (fun l => 0 < length l <= 76) (chunks_from fuel s).
Proof.
  revert s. induction fuel as [|fuel IH]; intros s Hl Hs.
  - destruct s; [|cbn in Hl; lia]. repeat split. constructor.
  - destruct s as [|c s]; [repeat split; constructor|].
    cbn [chunks_from].
    destruct (IH (skipn 76 (c :: s))) as (H1 & H2 & H3).
    { rewrite length_skipn. cbn [length] in *. lia. }
    { now apply no_terminator_skipn. }
    split; [|split].
    + rewrite (wrap_from_run 0 (c :: s)) by (lia || assumption).
      rewrite Nat.sub_0_r. cbn [length Nat.min plus].
      change (lines_text (?x :: ?l)) with ((x ++ CRLF) ++ lines_text l).
      rewrite <- app_assoc, H1. reflexivity.
    + cbn [concat]. rewrite H2. apply firstn_skipn.
    + apply List.Forall_cons; [|exact H3].
      rewrite length_firstn. cbn [length]. lia.
Qed.

Lemma wrap76_lines (s : str) :
  no_terminator s ->
  wrap76 s = lines_text (chunks76 s)
  /\ concat (chunks76 s) = s
  /\ Forall (fun l => 0 < length l <= 76) (chunks76 s).
Proof.
  intros H. apply wrap_chunks_from; [reflexivity|assumption].
Qed.

(** X3.  [wrap76] cuts the base64 text of an attachment into consecutive
    lines of 76 characters, the last one possibly shorter and none
    empty, each ended by CRLF; the lines put together give the base64
    text back. *)
Theorem attachment_data_wrapped (d : list Byte.byte) :
  wrap76 (base64 d) = lines_text (chunks76 (base64 d))
  /\ concat (chunks76 (base64 d)) = base64 d
  /\ Forall (fun l => 0 < length l <= 76) (chunks76 (base64 d)).
Proof.
  apply wrap_chunks_from; [reflexivity|].
  unfold no_terminator, base64.
  eapply List.Forall_impl; [|apply base64_of_chars].
  intros c [Hc| ->]; [|reflexivity].
  unfold is_line_terminator.
  destruct (Ascii.eqb c CR) eqn:E1.
  { apply Ascii.eqb_eq in E1. subst c. exfalso. revert Hc.
    apply no_char_by_scan. vm_compute. reflexivity. }
  destruct (Ascii.eqb c LF) eqn:E2; [|reflexivity].
  apply Ascii.eqb_eq in E2. subst c. exfalso. revert Hc.
  apply no_char_by_scan. vm_compute. reflexivity.
Qed.

(** *** The wire encoding *)

Lemma base64_of_padded (d : list N) :
  exists body pad, base64_of d = body ++ pad /\ padded body pad.
Proof.
  assert (H : forall k d, length d <= k ->
            exists body pad, base64_of d = body ++ pad /\ padded body pad).
  { induction k as [|k IH]; intros [|a [|b [|c d']]] Hk;
      cbn [length] in Hk; try lia; cbn [base64_of].
    - exists [], []. split; [reflexivity|]. split; [constructor|now left].
    - exists [], []. split; [reflexivity|]. split; [constructor|now left].
    - eexists [_; _], ["="; "="]. split; [reflexivity|].
      split; [|now right; right].
      repeat (apply List.Forall_cons; [apply base64_digit_alphabet|]).
      constructor.
    - eexists [_; _; _], ["="]. split; [reflexivity|].
      split; [|now right; left].
      repeat (apply List.Forall_cons; [apply base64_digit_alphabet|]).
      constructor.
    - destruct (IH d') as (body & pad & E & Hb & Hp); [lia|].
      eexists (_ :: _ :: _ :: _ :: body), pad. rewrite E.
      split; [reflexivity|]. split; [|exact Hp].
      repeat (apply List.Forall_cons; [apply base64_digit_alphabet|]).
      exact Hb. }
  now apply (H (length d)).
Qed.

Lemma drop_leading_eq_pad (pad s : str) :
  Forall (fun c => c = "=") pad ->
  drop_leading_eq (pad ++ s) = drop_leading_eq s.
Proof.
  induction 1 as [|c pad -> _ IH]; [reflexivity|].
  cbn [app drop_leading_eq]. exact IH.
Qed.

Lemma drop_leading_eq_none (s : str) :
  Forall (fun c => c <> "=") s -> drop_leading_eq s = s.
Proof.
  destruct 1 as [|c s Hc _]; [reflexivity|].
  cbn [drop_leading_eq]. apply Ascii.eqb_neq in Hc. now rewrite Hc.
Qed.

Lemma to_url_char (c : ascii) :
  In c base64_alphabet ->
  is_url_char (if Ascii.eqb (if Ascii.eqb c "+" then "-" else c) "/"
               then "_" else if Ascii.eqb c "+" then "-" else c) = true.
Proof.
  intros H. vm_compute in H.
  repeat (destruct H as [<-|H]; [reflexivity|]). destruct H.
Qed.

(** X5.  [toBase64Url] gives a text made only of letters, digits, [-] and
    [_]: it holds no [+], no [/] and no padding [=]. *)
Theorem toBase64Url_is_url_safe (s : str) :
  Forall (fun c => is_url_char c = true) (toBase64Url s).
Proof.
  unfold toBase64Url, strip_padding.
  destruct (base64_of_padded (utf8 s)) as (body & pad & -> & Hb & Hp).
  rewrite map_map, map_app, rev_app_distr.
  assert (Hpad : map (fun c => if Ascii.eqb (if Ascii.eqb c "+" then "-" else c) "/"
                               then "_" else if Ascii.eqb c "+" then "-" else c)
                   pad = pad)
    by (destruct Hp as [-> |[-> | ->]]; reflexivity).
  rewrite Hpad.
  assert (Hbody : Forall (fun c => is_url_char c = true)
            (map (fun c => if Ascii.eqb (if Ascii.eqb c "+" then "-" else c) "/"
                           then "_" else if Ascii.eqb c "+" then "-" else c)
               body)).
  { apply List.Forall_map. eapply List.Forall_impl; [|exact Hb].
    intros c Hc. apply (to_url_char c Hc). }
  rewrite drop_leading_eq_pad
    by (destruct Hp as [-> |[-> | ->]]; repeat constructor).
  rewrite drop_leading_eq_none.
  - now rewrite rev_involutive.
  - apply List.Forall_rev. eapply List.Forall_impl; [|exact Hbody].
    intros c Hc ->. discriminate.
Qed.

(** *** Attachments that cannot be read *)

(** X4.  The paths that cannot be read are logged, in order, and leave no
    part in the message: under the hypotheses of the count of
    dispositions, the message holds one disposition per path that can be
    read. *)
Theorem unreadable_attachments_are_skipped (pf : platform) (rnd : str)
  (m : email) :
  snd (buildRawEmail pf rnd m) = unreadable pf (attachments m)
  /\ (forallb is_base36 rnd = true ->
      free_of disposition_marker (toStr (from m)) ->
      free_of disposition_marker (toStr (to m)) ->
      free_of disposition_marker (toStr (subject m)) ->
      free_of disposition_marker (text_or_empty (text m)) ->
      Forall (fun p => free_of disposition_marker (basename pf p)
                       /\ free_of disposition_marker (content_type pf p))
        (attachments m) ->
      occurrences disposition_marker (fst (buildRawEmail pf rnd m))
      = length (attachments m) - length (unreadable pf (attachments m))).
Proof.
  split.
  - unfold buildRawEmail. destruct (attachments m) as [|p atts]; [reflexivity|].
    rewrite attach_all_spec. reflexivity.
  - intros Hr Hf Ht Hs Hx Hatts. rewrite DM_count by assumption.
    unfold unreadable. clear.
    induction (attachments m) as [|p atts IH]; [reflexivity|].
    cbn [List.filter length]. destruct (readable pf p); cbn [negb length].
    + rewrite IH.
      assert (length (List.filter (fun p => negb (readable pf p)) atts)
              <= length atts) by apply List.filter_length_le.
      lia.
    + rewrite IH. lia.
Qed.

Lemma unreadable_attachments_are_skipped_witness :
  occurrences disposition_marker
    (fst (buildRawEmail
            {| readFileSync := fun p => if str_eqb p (lit "a.txt")
                                        then Some [Byte.x68; Byte.x69]
                                        else None;
               basename := fun p => p;
               mime_lookup := fun _ => None |}
            (lit "k3j2x")
            {| from := VUndefined; to := VStr (lit "ann@x.com");
               subject := VStr (lit "Hello"); text := VStr (lit "Hi Ann");
               attachments := [lit "a.txt"; lit "gone.pdf"] |})) = 1.
Proof.
  refine (proj2 (unreadable_attachments_are_skipped _ _ _) _ _ _ _ _ _);
    try reflexivity.
  repeat (apply List.Forall_cons; [split; reflexivity|]).
  apply List.Forall_nil.
Defined.

End MessageMore.

(** ** More on the sheet status writer *)

Module StatusMore.
Import Js JsFacts Trace Status StatusFacts Reference.

(** *** Column names *)

Lemma a1_numeral_cons (c : ascii) (s : str) :
  a1_numeral (c :: s)
  = ((Z.of_nat (nat_of_ascii c) - 64) * 26 ^ Z.of_nat (length s)
     + a1_numeral s)%Z.
Proof.
  unfold a1_numeral. cbn [fold_left].
  generalize (Z.of_nat (nat_of_ascii c) - 64)%Z. intros d.
  replace (0 * 26 + d)%Z with d by lia.
  assert (H : forall s a,
            fold_left (fun acc c => (acc * 26 + (Z.of_nat (nat_of_ascii c) - 64))%Z) s a
            = (a * 26 ^ Z.of_nat (length s)
               + fold_left (fun acc c => (acc * 26 + (Z.of_nat (nat_of_ascii c) - 64))%Z) s 0)%Z).
  { clear. induction s as [|x s IH]; intros a.
    - cbn. lia.
    - cbn [fold_left length]. rewrite IH.
      rewrite (IH (0 * 26 + _)%Z).
      rewrite Nat2Z.inj_succ, Z.pow_succ_r by lia. lia. }
  apply H.
Qed.

Lemma letter_code (n : Z) :
  (0 <= n)%Z ->
  Z.of_nat (nat_of_ascii (ascii_of_nat (Z.to_nat (n mod 26) + 65)))
  = (n mod 26 + 65)%Z.
Proof.
  intros Hn. pose proof (Z.mod_pos_bound n 26 ltac:(lia)) as Hm.
  rewrite nat_ascii_embedding by lia. lia.
Qed.

Lemma column_loop_numeral (fuel : nat) (n : Z) (s : str) :
  (0 <= n)%Z -> (Z.to_nat n < fuel)%nat ->
  a1_numeral (column_loop fuel n s)
  = ((n + 1) * 26 ^ Z.of_nat (length s) + a1_numeral s)%Z
  /\ (Forall (fun c => is_upper c = true) s ->
      Forall (fun c => is_upper c = true) (column_loop fuel n s))
  /\ column_loop fuel n s <> [].
Proof.
  revert n s. induction fuel as [|fuel IH]; intros n s Hn Hf; [lia|].
  cbn [column_loop].
  replace (n <? 0)%Z with false by (symmetry; apply Z.ltb_ge; lia).
  pose proof (Z.mod_pos_bound n 26 ltac:(lia)) as Hm.
  pose proof (Z.div_mod n 26 ltac:(lia)) as Hdm.
  assert (Hq : (0 <= n / 26)%Z) by (apply Z.div_pos; lia).
  set (c := ascii_of_nat (Z.to_nat (n mod 26) + 65)).
  assert (Hc : Z.of_nat (nat_of_ascii c) = (n mod 26 + 65)%Z)
    by (now apply letter_code).
  assert (Hu : is_upper c = true).
  { unfold is_upper. apply andb_true_iff.
    split; apply Nat.leb_le; lia. }
  destruct (Z.eq_dec (n / 26)%Z 0%Z) as [E|E].
  - (* last letter *)
    rewrite E. change (0 - 1)%Z with (-1)%Z.
    destruct fuel as [|fuel']; cbn [column_loop].
    + split; [|split; [|discriminate]].
      * rewrite a1_numeral_cons, Hc. nia.
      * intros H. now apply List.Forall_cons.
    + change (-1 <? 0)%Z with true. cbn iota.
      split; [|split; [|discriminate]].
      * rewrite a1_numeral_cons, Hc. nia.
      * intros H. now apply List.Forall_cons.
  - destruct (IH (n / 26 - 1)%Z (c :: s)) as (H1 & H2 & H3); [lia| |].
    { assert (n / 26 - 1 < n)%Z by (apply Z.lt_le_trans with (n / 26)%Z; [lia|];
        apply Z.div_le_upper_bound; lia). lia. }
    split; [|split; [|exact H3]].
    + rewrite H1, a1_numeral_cons, Hc. cbn [length].
      rewrite Nat2Z.inj_succ, Z.pow_succ_r by lia. nia.
    + intros H. apply H2. now apply List.Forall_cons.
Qed.

(** X6.  [columnIndexToA1] names the columns A, B, ..., Z, AA, AB, ...: for
    an index that is not negative the name is not empty, made of
    capital letters, and read as a column name it gives the index back;
    for a negative index the name is empty. *)
Theorem columnIndexToA1_names (n : Z) :
  ((0 <= n)%Z ->
   a1_index (columnIndexToA1 n) = n
   /\ Forall (fun c => is_upper c = true) (columnIndexToA1 n)
   /\ columnIndexToA1 n <> [])
  /\ ((n < 0)%Z -> columnIndexToA1 n = []).
Proof.
  split.
  - intros Hn. unfold columnIndexToA1, a1_index.
    destruct (column_loop_numeral (S (Z.to_nat n)) n [] Hn ltac:(lia))
      as (H1 & H2 & H3).
    split; [|split; [apply H2; constructor|exact H3]].
    rewrite H1. cbn. lia.
  - intros Hn. unfold columnIndexToA1. cbn [column_loop].
    apply Z.ltb_lt in Hn. now rewrite Hn.
Qed.

Lemma columnIndexToA1_names_witness :
  a1_index (columnIndexToA1 27) = 27%Z
  /\ columnIndexToA1 27 = lit "AB"
  /\ columnIndexToA1 (-1) = [].
Proof.
  split; [|split].
  - apply (proj1 (columnIndexToA1_names 27)). lia.
  - reflexivity.
  - apply (proj2 (columnIndexToA1_names (-1))). lia.
Defined.

(** *** Status writes *)

Lemma ensure_has_status (title : str) (headers : list value) (ok : bool) :
  exists h, In h (fst (fst (ensureStatusColumn title headers ok)))
            /\ is_status h = true.
Proof.
  destruct (findIndex is_status headers) as [i|] eqn:E.
  - rewrite (ensure_found _ _ _ _ E). cbn [fst].
    destruct (findIndex_some _ _ _ E) as (_ & h & Hh & Hs).
    exists h. split; [|assumption]. eapply nth_error_In, Hh.
  - destruct (ensure_absent title headers ok E) as [-> _].
    exists (VStr (lit "Status")). split; [|reflexivity].
    apply in_or_app. right. now left.
Qed.

Lemma ensure_column (title : str) (headers : list value) (ok : bool) :
  snd (fst (ensureStatusColumn title headers ok)) = (-1)%Z
  /\ findIndex is_status headers = None /\ ok = false
  \/ exists k h,
       snd (fst (ensureStatusColumn title headers ok)) = Z.of_nat k
       /\ nth_error (fst (fst (ensureStatusColumn title headers ok))) k = Some h
       /\ is_status h = true.
Proof.
  destruct (findIndex is_status headers) as [i|] eqn:E.
  - right. rewrite (ensure_found _ _ _ _ E). cbn [fst snd].
    destruct (findIndex_some _ _ _ E) as (_ & h & Hh & Hs). now exists i, h.
  - destruct (ensure_absent title headers ok E) as [H1 H2]. rewrite H1, H2.
    destruct ok; [right|left; auto].
    exists (length headers), (VStr (lit "Status")).
    split; [reflexivity|]. split; [|reflexivity].
    rewrite nth_error_app2, Nat.sub_diag by lia. reflexivity.
Qed.

(** X7.  When the services cannot be ensured, [updateSheetStatus] throws
    [Not authenticated] before any sheet call and leaves the header list
    as it was.  When they can and a sheet title is given, it does not
    throw and reports success exactly when the cell write succeeds;
    afterwards the header list holds a Status header, and the cell
    written is in sheet row [rowIndexZeroBased + 2]; its column is the
    one of a Status header, unless the header row could not be written:
    the range then names no column at all. *)
Theorem updateSheetStatus_reports (sc : sheet_calls) (title : value)
  (headers : list value) (i : nat) (text : str) :
  (services_ok sc = false ->
   updateSheetStatus sc title headers i text
   = (headers, [], Thrown (lit "Not authenticated")))
  /\ (services_ok sc = true ->
      truthy title = true ->
      snd (updateSheetStatus sc title headers i text)
      = Returned (cell_update_ok sc)
      /\ (exists h, In h (fst (fst (updateSheetStatus sc title headers i text)))
                    /\ is_status h = true)
      /\ (exists col,
            In (UpdateCell (toStr title ++ lit "!" ++ columnIndexToA1 col
                            ++ toStr (VNum (Z.of_nat i + 2))) text)
               (snd (fst (updateSheetStatus sc title headers i text)))
            /\ (col = (-1)%Z /\ columnIndexToA1 col = []
                /\ findIndex is_status headers = None
                /\ header_update_ok sc = false
                \/ exists k h,
                     col = Z.of_nat k
                     /\ nth_error
                          (fst (fst (updateSheetStatus sc title headers i text)))
                          k
                        = Some h
                     /\ is_status h = true))).
Proof.
  split.
  { intros Hsv. unfold updateSheetStatus. now rewrite Hsv. }
  intros Hsv Ht. unfold updateSheetStatus. rewrite Hsv, Ht. cbn [negb].
  pose proof (ensure_has_status (toStr title) headers (header_update_ok sc))
    as Hs.
  pose proof (ensure_column (toStr title) headers (header_update_ok sc)) as Hc.
  destruct (ensureStatusColumn (toStr title) headers (header_update_ok sc))
    as [[headers' col] ev1]. cbn [fst snd] in Hs, Hc.
  assert (Hcol : col = (-1)%Z /\ columnIndexToA1 col = []
            /\ findIndex is_status headers = None
            /\ header_update_ok sc = false
            \/ exists k h, col = Z.of_nat k /\ nth_error headers' k = Some h
                           /\ is_status h = true).
  { destruct Hc as [(-> & H1 & H2)|Hc]; [left|now right].
    repeat split; assumption. }
  destruct (cell_update_ok sc); cbn [fst snd];
    (split; [reflexivity|]); (split; [exact Hs|]); exists col;
    (split; [|exact Hcol]); rewrite !in_app_iff; right; right; now left.
Qed.

Lemma updateSheetStatus_reports_witness :
  snd (updateSheetStatus
         {| services_ok := true; first_tab := Returned VUndefined;
            header_update_ok := false; cell_update_ok := true |}
         (VStr (lit "Sheet1")) [VStr (lit "Name")] 0 (lit "SENT"))
  = Returned true
  /\ In (UpdateCell (lit "Sheet1!2") (lit "SENT"))
       (snd (fst (updateSheetStatus
                    {| services_ok := true; first_tab := Returned VUndefined;
                       header_update_ok := false; cell_update_ok := true |}
                    (VStr (lit "Sheet1")) [VStr (lit "Name")] 0 (lit "SENT")))).
Proof.
  destruct (proj2 (updateSheetStatus_reports
              {| services_ok := true; first_tab := Returned VUndefined;
                 header_update_ok := false; cell_update_ok := true |}
              (VStr (lit "Sheet1")) [VStr (lit "Name")] 0 (lit "SENT"))
              eq_refl eq_refl) as (H1 & _ & _).
  split; [exact H1|]. vm_compute. tauto.
Defined.

End StatusMore.

(** ** More on the campaign runner *)

Module CampaignMore.
Import Js JsFacts Trace Status StatusFacts Campaign CampaignFacts Reference.

(** *** The recipient column *)

Lemma findIndex_first {A} (f : A -> bool) (a : list A) (i : nat) :
  findIndex f a = Some i ->
  forall j x, j < i -> nth_error a j = Some x -> f x = false.
Proof.
  revert i. induction a as [|y a IH]; intros i H j x Hj Hx; [discriminate|].
  cbn in H. destruct (f y) eqn:E.
  - injection H as <-. lia.
  - destruct (findIndex f a) as [k|] eqn:Ek; [|discriminate].
    injection H as <-. destruct j as [|j]; cbn in Hx.
    + now injection Hx as <-.
    + eapply (IH k eq_refl j); [lia|exact Hx].
Qed.

Lemma findIndex_map {A B} (g : A -> B) (f : B -> bool) (a : list A) :
  findIndex f (map g a) = findIndex (fun x => f (g x)) a.
Proof.
  induction a as [|x a IH]; [reflexivity|]. cbn. now rewrite IH.
Qed.

(** X8.  [findEmailColumnIndex] gives the first header whose text holds
    ['email'] in any mix of cases, and nothing when no header does. *)
Theorem findEmailColumnIndex_first (headers : list value) :
  (forall i, findEmailColumnIndex headers = Some i ->
     (exists h, nth_error headers i = Some h /\ names_email h = true)
     /\ (forall j h, j < i -> nth_error headers j = Some h ->
         names_email h = false))
  /\ (findEmailColumnIndex headers = None <->
      forall h, In h headers -> names_email h = false).
Proof.
  unfold findEmailColumnIndex. rewrite findIndex_map. split.
  - intros i H. split.
    + destruct (findIndex_some _ _ _ H) as (_ & h & Hh & Hf). now exists h.
    + intros j h Hj Hh. eapply findIndex_first; eassumption.
  - apply findIndex_none.
Qed.

Lemma findEmailColumnIndex_first_witness :
  exists h, nth_error [VStr (lit "Name"); VStr (lit "E-Mail"); VStr (lit "Work EMAIL")] 2
            = Some h /\ names_email h = true.
Proof.
  apply (proj1 (findEmailColumnIndex_first
                  [VStr (lit "Name"); VStr (lit "E-Mail");
                   VStr (lit "Work EMAIL")]) 2).
  reflexivity.
Defined.

(** *** Which rows are sent *)

Lemma renderWithRow_total (content : str) (hs row : list value)
  (signature : option str) :
  exists text, Render.renderWithRow content hs row signature = Some text.
Proof.
  unfold Render.renderWithRow.
  destruct (RenderFacts.render_headers_total hs 0 row content) as [res ->].
  eauto.
Qed.

Lemma sent_rows_app (a b : list event) :
  sent_rows (a ++ b) = sent_rows a ++ sent_rows b.
Proof.
  induction a as [|e a IH]; [reflexivity|].
  destruct e; cbn [app sent_rows]; rewrite IH; reflexivity.
Qed.

Lemma sent_rows_timeline (tr : list event) :
  sent_rows (timeline tr) = sent_rows tr.
Proof.
  induction tr as [|e tr IH]; [reflexivity|].
  destruct e; cbn [timeline List.filter is_pacing sent_rows];
    fold (timeline tr); rewrite ?IH; reflexivity.
Qed.

Lemma sent_rows_silent (tr : list event) :
  timeline tr = [] -> sent_rows tr = [].
Proof. intros H. now rewrite <- sent_rows_timeline, H. Qed.

Lemma send_rows_outcome (w : world) (p : params) (emailIdx : nat)
  (signature : str) (rows : list (list value)) (i : nat)
  (headers : list value) :
  loop_outcome w (addressed_from emailIdx rows i)
    (sent_rows (fst (send_rows w p emailIdx signature rows i headers)))
    (snd (send_rows w p emailIdx signature rows i headers)).
Proof.
  revert i headers. induction rows as [|row rows IH]; intros i headers.
  - cbn. split; [reflexivity|constructor].
  - cbn [send_rows addressed_from].
    destruct (truthy (index row emailIdx)) eqn:Et; cbn [negb]; [|apply IH].
    destruct (renderWithRow_total (content p) headers row (Some signature))
      as [text ->].
    destruct (Message.buildRawEmail _ _ _) as [rawStr failed].
    destruct (send_result w i) as [u|e] eqn:Es.
    + pose proof (timeline_status
        {| services_ok := services w;
           first_tab := Returned VUndefined;
           Status.header_update_ok := header_update_ok w i;
           Status.cell_update_ok := cell_update_ok w i |}
        (if truthy (sheetTitle p) then sheetTitle p else VStr (lit "Sheet1"))
        headers i (lit "SENT")) as Hs.
      destruct (updateSheetStatus _ _ _ _ _) as [[headers' ev] r0].
      cbn [fst snd] in Hs. specialize (IH (S i) headers').
      destruct (send_rows w p emailIdx signature rows (S i) headers')
        as [evs r]. cbn [fst snd] in *.
      rewrite !sent_rows_app, (sent_rows_silent _ (timeline_logs failed)),
        (sent_rows_silent _ Hs).
      cbn [app sent_rows].
      assert (Hi : accepted w i) by (now exists u).
      destruct r as [|msg|]; cbn [loop_outcome] in *.
      * destruct IH as [-> Hf]. split; [reflexivity|now constructor].
      * destruct IH as (pre & k & rest & -> & -> & Hf & Hk).
        exists (i :: pre), k, rest. repeat split; auto.
      * exact IH.
    + cbn [fst snd]. rewrite sent_rows_app,
        (sent_rows_silent _ (timeline_logs failed)). cbn [app sent_rows].
      exists [], i, (addressed_from emailIdx rows (S i)).
      repeat split; auto.
Qed.

(** The events of a run around its loop bring no send. *)
Lemma run_outcome (w : world) (p : params) (headers : list value)
  (rows : list (list value)) (emailIdx : nat) :
  services w = true ->
  sheet_values w = Returned (headers :: rows) ->
  findEmailColumnIndex headers = Some emailIdx ->
  (useSignature p = true -> exists sig, primary_signature w = Returned sig) ->
  loop_outcome w (addressed_from emailIdx rows 0)
    (sent_rows (fst (executeCampaignRun w p)))
    (snd (executeCampaignRun w p))
  /\ (snd (executeCampaignRun w p) = Completed ->
      In (Telemetry (lit "campaign_run") (length rows))
         (fst (executeCampaignRun w p))).
Proof.
  intros Hsv Hv He Hsig. unfold executeCampaignRun.
  rewrite Hsv, Hv, He. cbn [negb].
  assert (H : forall ev0 signature, sent_rows ev0 = [] ->
    let res :=
      match send_rows w p emailIdx signature rows 0 headers with
      | (evs, Completed) =>
          (GetValues (if truthy (sheetTitle p)
                      then toStr (sheetTitle p) ++ lit "!A:Z"
                      else lit "A:Z") :: ev0 ++ evs
           ++ [Telemetry (lit "campaign_run") (length rows)], Completed)
      | (evs, r) =>
          (GetValues (if truthy (sheetTitle p)
                      then toStr (sheetTitle p) ++ lit "!A:Z"
                      else lit "A:Z") :: ev0 ++ evs, r)
      end in
    loop_outcome w (addressed_from emailIdx rows 0) (sent_rows (fst res))
      (snd res)
    /\ (snd res = Completed ->
        In (Telemetry (lit "campaign_run") (length rows)) (fst res))).
  { intros ev0 signature H0. cbv zeta.
    pose proof (send_rows_outcome w p emailIdx signature rows 0 headers) as Ho.
    destruct (send_rows w p emailIdx signature rows 0 headers) as [evs r].
    cbn [fst snd] in Ho.
    destruct r; cbn [fst snd sent_rows]; rewrite !sent_rows_app, H0;
      cbn [app sent_rows]; rewrite ?app_nil_r; (split; [exact Ho|]).
    - intros _. right. rewrite !in_app_iff. right. right. now left.
    - discriminate.
    - discriminate. }
  destruct (useSignature p).
  - destruct (Hsig eq_refl) as [sig ->]. now apply H.
  - now apply H.
Qed.

(** X9.  When the services exist, the sheet has a header row with a
    recipient column, the signature can be fetched if one is asked for,
    and every send is accepted, the run ends normally: the rows sent
    are exactly the rows whose recipient cell is not empty, each once
    and in sheet order, and the completion signal counts all the data
    rows, the skipped ones included. *)
Theorem run_completes (w : world) (p : params) (headers : list value)
  (rows : list (list value)) (emailIdx : nat) :
  services w = true ->
  sheet_values w = Returned (headers :: rows) ->
  findEmailColumnIndex headers = Some emailIdx ->
  (useSignature p = true -> exists sig, primary_signature w = Returned sig) ->
  (forall k, accepted w k) ->
  snd (executeCampaignRun w p) = Completed
  /\ sent_rows (fst (executeCampaignRun w p)) = addressed_from emailIdx rows 0
  /\ In (Telemetry (lit "campaign_run") (length rows))
        (fst (executeCampaignRun w p)).
Proof.
  intros Hsv Hv He Hsig Hacc.
  destruct (run_outcome w p headers rows emailIdx Hsv Hv He Hsig) as [Ho Ht].
  destruct (snd (executeCampaignRun w p)) as [|msg|]; cbn [loop_outcome] in Ho.
  - destruct Ho as [Ho _]. auto.
  - destruct Ho as (pre & k & rest & _ & _ & _ & Hk).
    destruct (Hacc k) as [u Hu]. congruence.
  - destruct Ho.
Qed.

Lemma run_completes_witness :
  snd (executeCampaignRun (Samples.world (fun _ => false))
         (Samples.campaign None)) = Completed
  /\ sent_rows (fst (executeCampaignRun (Samples.world (fun _ => false))
                       (Samples.campaign None))) = [0; 1; 2].
Proof.
  destruct (run_completes (Samples.world (fun _ => false))
              (Samples.campaign None)
              [VStr (lit "Name"); VStr (lit "Email")]
              [[VStr (lit "Ann"); VStr (lit "ann@x.com")];
               [VStr (lit "Bo"); VStr (lit "bo@x.com")];
               [VStr (lit "Cy"); VStr (lit "cy@x.com")]] 1)
    as (H1 & H2 & _); try reflexivity.
  - discriminate.
  - intros k. now exists tt.
  - split; assumption.
Defined.

(** X10.  The rows are attempted in sheet order and the first rejected send
    ends the run: whenever the provider rejects the send of a row that
    the run reaches, the run fails with the provider's error, that row
    is the last one sent, and the rows sent are the first rows with a
    recipient, up to it. *)
Theorem first_rejection_ends_run (w : world) (p : params)
  (headers : list value) (rows : list (list value)) (emailIdx k : nat)
  (msg : str) :
  services w = true ->
  sheet_values w = Returned (headers :: rows) ->
  findEmailColumnIndex headers = Some emailIdx ->
  (useSignature p = true -> exists sig, primary_signature w = Returned sig) ->
  In k (sent_rows (fst (executeCampaignRun w p))) ->
  send_result w k = Thrown msg ->
  snd (executeCampaignRun w p) = Failed msg
  /\ exists pre rest,
       sent_rows (fst (executeCampaignRun w p)) = pre ++ [k]
       /\ addressed_from emailIdx rows 0 = pre ++ k :: rest.
Proof.
  intros Hsv Hv He Hsig Hin Hk.
  destruct (run_outcome w p headers rows emailIdx Hsv Hv He Hsig) as [Ho _].
  assert (Hna : ~ accepted w k) by (intros [u Hu]; congruence).
  destruct (snd (executeCampaignRun w p)) as [|msg'|]; cbn [loop_outcome] in Ho.
  - destruct Ho as [_ Hf]. rewrite List.Forall_forall in Hf.
    destruct (Hna (Hf k Hin)).
  - destruct Ho as (pre & k' & rest & Hs & Ha & Hf & Hk').
    rewrite Hs in Hin. apply in_app_iff in Hin as [Hin|[<-|[]]].
    + rewrite List.Forall_forall in Hf. destruct (Hna (Hf k Hin)).
    + split; [congruence|]. now exists pre, rest.
  - destruct Ho.
Qed.

Lemma first_rejection_ends_run_witness :
  snd (executeCampaignRun (Samples.world (Nat.eqb 1))
         (Samples.campaign None)) = Failed (lit "provider error").
Proof.
  refine (proj1 (first_rejection_ends_run (Samples.world (Nat.eqb 1))
                   (Samples.campaign None)
                   [VStr (lit "Name"); VStr (lit "Email")]
                   [[VStr (lit "Ann"); VStr (lit "ann@x.com")];
                    [VStr (lit "Bo"); VStr (lit "bo@x.com")];
                    [VStr (lit "Cy"); VStr (lit "cy@x.com")]] 1 1
                   (lit "provider error") _ _ _ _ _ _));
    try reflexivity.
  - discriminate.
  - vm_compute. tauto.
Defined.

(** *** What a run needs before it sends *)

(** X11.  A run sends nothing unless the services exist, the sheet has a
    header row, some header names the recipient column and, when a
    signature is asked for, the signature could be fetched. *)
Theorem no_send_without_setup (w : world) (p : params) :
  sent_rows (fst (executeCampaignRun w p)) <> [] ->
  services w = true
  /\ (exists headers rows emailIdx,
        sheet_values w = Returned (headers :: rows)
        /\ findEmailColumnIndex headers = Some emailIdx)
  /\ (useSignature p = true -> exists sig, primary_signature w = Returned sig).
Proof.
  unfold executeCampaignRun.
  destruct (services w); cbn [negb]; [|intros H; now destruct H].
  destruct (sheet_values w) as [[|headers rows]|e];
    try (intros H; now destruct H).
  destruct (findEmailColumnIndex headers) as [emailIdx|] eqn:Ee;
    [|intros H; now destruct H].
  intros H. split; [reflexivity|]. split; [now exists headers, rows, emailIdx|].
  intros Hu. rewrite Hu in H.
  destruct (primary_signature w) as [sig|e]; [now exists sig|].
  now destruct H.
Qed.

Lemma no_send_without_setup_witness :
  services (Samples.world (fun _ => false)) = true.
Proof.
  apply (no_send_without_setup (Samples.world (fun _ => false))
           (Samples.campaign None)).
  vm_compute. discriminate.
Defined.

(** *** Status writes do not decide the run *)

Lemma ensure_headers_any (title : str) (headers : list value) (ok ok' : bool) :
  fst (fst (ensureStatusColumn title headers ok))
  = fst (fst (ensureStatusColumn title headers ok')).
Proof.
  unfold ensureStatusColumn.
  destruct (findIndex is_status headers); [reflexivity|].
  destruct ok, ok'; reflexivity.
Qed.

Lemma status_headers_any (sc sc' : sheet_calls) (title : value)
  (headers : list value) (i : nat) (text : str) :
  services_ok sc = services_ok sc' ->
  truthy title = true ->
  fst (fst (updateSheetStatus sc title headers i text))
  = fst (fst (updateSheetStatus sc' title headers i text)).
Proof.
  intros Hsv Ht. unfold updateSheetStatus. rewrite <- Hsv, Ht.
  destruct (negb (services_ok sc)); [reflexivity|].
  pose proof (ensure_headers_any (toStr title) headers
                (Status.header_update_ok sc) (Status.header_update_ok sc'))
    as H.
  destruct (ensureStatusColumn (toStr title) headers (Status.header_update_ok sc))
    as [[h1 c1] e1].
  destruct (ensureStatusColumn (toStr title) headers (Status.header_update_ok sc'))
    as [[h2 c2] e2].
  cbn [fst] in H. subst h2.
  destruct (Status.cell_update_ok sc), (Status.cell_update_ok sc'); reflexivity.
Qed.

Lemma title_or_default_truthy (t : value) :
  truthy (if truthy t then t else VStr (lit "Sheet1")) = true.
Proof. destruct (truthy t) eqn:E; [exact E|reflexivity]. Qed.

Lemma send_rows_any_status (w w' : world) (p : params) (emailIdx : nat)
  (signature : str) (rows : list (list value)) (i : nat)
  (headers : list value) :
  same_but_status w w' ->
  timeline (fst (send_rows w p emailIdx signature rows i headers))
  = timeline (fst (send_rows w' p emailIdx signature rows i headers))
  /\ snd (send_rows w p emailIdx signature rows i headers)
     = snd (send_rows w' p emailIdx signature rows i headers).
Proof.
  intros (Hsv & _ & _ & Hs & Hr & Hb & Hf).
  revert i headers. induction rows as [|row rows IH]; intros i headers.
  - split; reflexivity.
  - cbn [send_rows].
    destruct (negb (truthy (index row emailIdx))); [apply IH|].
    destruct (Render.renderWithRow _ _ _ _) as [text|]; [|split; reflexivity].
    rewrite <- Hf, <- Hb.
    destruct (Message.buildRawEmail _ _ _) as [rawStr failed].
    rewrite <- Hs.
    destruct (send_result w i) as [u|e]; [|split; reflexivity].
    pose proof (status_headers_any
      {| services_ok := services w;
         first_tab := Returned VUndefined;
         Status.header_update_ok := header_update_ok w i;
         Status.cell_update_ok := cell_update_ok w i |}
      {| services_ok := services w';
         first_tab := Returned VUndefined;
         Status.header_update_ok := header_update_ok w' i;
         Status.cell_update_ok := cell_update_ok w' i |}
      _ headers i (lit "SENT") Hsv
      (title_or_default_truthy (sheetTitle p))) as Hh.
    pose proof (timeline_status
      {| services_ok := services w;
         first_tab := Returned VUndefined;
         Status.header_update_ok := header_update_ok w i;
         Status.cell_update_ok := cell_update_ok w i |}
      (if truthy (sheetTitle p) then sheetTitle p else VStr (lit "Sheet1"))
      headers i (lit "SENT")) as H1.
    pose proof (timeline_status
      {| services_ok := services w';
         first_tab := Returned VUndefined;
         Status.header_update_ok := header_update_ok w' i;
         Status.cell_update_ok := cell_update_ok w' i |}
      (if truthy (sheetTitle p) then sheetTitle p else VStr (lit "Sheet1"))
      headers i (lit "SENT")) as H2.
    destruct (updateSheetStatus _ _ _ _ _) as [[h1 ev1] r1].
    destruct (updateSheetStatus _ _ _ _ _) as [[h2 ev2] r2].
    cbn [fst snd] in Hh, H1, H2. subst h2.
    destruct (IH (S i) h1) as [IH1 IH2].
    destruct (send_rows w p emailIdx signature rows (S i) h1) as [evs r].
    destruct (send_rows w' p emailIdx signature rows (S i) h1) as [evs' r'].
    cbn [fst snd] in *. subst r'. split; [|reflexivity].
    rewrite !timeline_app, timeline_logs, H1, H2, IH1, Hr. reflexivity.
Qed.

(** X12.  Whether the status writes succeed or fail changes nothing else in a
    run: in two worlds that differ only in the outcome of the header
    and cell writes, the same messages are sent with the same pauses and
    the run ends in the same way. *)
Theorem status_writes_do_not_decide (w w' : world) (p : params) :
  same_but_status w w' ->
  timeline (fst (executeCampaignRun w p))
  = timeline (fst (executeCampaignRun w' p))
  /\ snd (executeCampaignRun w p) = snd (executeCampaignRun w' p).
Proof.
  intros Hsame. pose proof Hsame as (H1 & H2 & H3 & _).
  unfold executeCampaignRun. rewrite <- H1, <- H2, <- H3.
  destruct (negb (services w)); [split; reflexivity|].
  destruct (sheet_values w) as [[|headers rows]|e]; try (split; reflexivity).
  destruct (findEmailColumnIndex headers) as [emailIdx|];
    [|split; reflexivity].
  assert (H : forall ev0 signature,
    let res (x : world) :=
      match send_rows x p emailIdx signature rows 0 headers with
      | (evs, Completed) =>
          (GetValues (if truthy (sheetTitle p)
                      then toStr (sheetTitle p) ++ lit "!A:Z"
                      else lit "A:Z") :: ev0 ++ evs
           ++ [Telemetry (lit "campaign_run") (length rows)], Completed)
      | (evs, r) =>
          (GetValues (if truthy (sheetTitle p)
                      then toStr (sheetTitle p) ++ lit "!A:Z"
                      else lit "A:Z") :: ev0 ++ evs, r)
      end in
    timeline (fst (res w)) = timeline (fst (res w'))
    /\ snd (res w) = snd (res w')).
  { intros ev0 signature. cbv zeta.
    destruct (send_rows_any_status w w' p emailIdx signature rows 0 headers
                Hsame) as [Ha Hb].
    destruct (send_rows w p emailIdx signature rows 0 headers) as [evs r].
    destruct (send_rows w' p emailIdx signature rows 0 headers) as [evs' r'].
    cbn [fst snd] in Ha, Hb. subst r'.
    destruct r; cbn [fst snd]; (split; [|reflexivity]);
      change (GetValues ?x :: ?l) with ([GetValues x] ++ l);
      rewrite !timeline_app, Ha; reflexivity. }
  destruct (useSignature p).
  - destruct (primary_signature w); [apply H|split; reflexivity].
  - apply H.
Qed.

Lemma status_writes_do_not_decide_witness :
  snd (executeCampaignRun (Samples.world (fun _ => false))
         (Samples.campaign None))
  = snd (executeCampaignRun
           {| services := true;
              sheet_values := Returned Samples.sheet;
              primary_signature := Returned [];
              send_result := fun _ => Returned tt;
              header_update_ok := fun _ => false;
              cell_update_ok := fun _ => false;
              random := fun _ => (2 ^ 52)%Z;
              boundary_rnd := fun _ => lit "k3j2x";
              files := Samples.files |}
           (Samples.campaign None)).
Proof.
  refine (proj2 (status_writes_do_not_decide _ _ _ _)).
  repeat split.
Defined.

End CampaignMore.

(** ** More on the scheduler *)

Module SchedulerMore.
Import Scheduler SchedulerFacts Reference.

(** *** A timeout fires once *)

Lemma fires_once_step (st : state) (a : action) :
  fires_once st -> fires_once (step st a).
Proof.
  intros (Hn & Ht & Hb).
  pose proof (handles_bounded_step st a Hb) as Hb'.
  split; [|split; [|exact Hb']].
  - destruct a as [p start now new_id|h|h|jid]; cbn; try assumption.
    + unfold fire. destruct (timers st !! h) as [[[jid q] ms]|] eqn:E;
        [|assumption].
      cbn. apply NoDup_app. split; [assumption|]. split.
      * intros x Hx Hx'. apply list_elem_of_singleton in Hx'. subst x.
        apply list_elem_of_In in Hx. rewrite (Ht _ Hx) in E. discriminate.
      * apply NoDup_singleton.
    + unfold finish. destruct (running st !! h); assumption.
    + unfold cancelScheduledJob. destruct (jobs st !! jid); assumption.
  - destruct a as [p start now new_id|h|h|jid]; cbn.
    + intros h Hin. destruct Hb as (_ & _ & Hi).
      rewrite lookup_insert_ne by (apply Hi in Hin; lia). now apply Ht.
    + unfold fire. destruct (timers st !! h) as [[[jid q] ms]|] eqn:E;
        [|assumption].
      cbn. intros x Hx. apply in_app_iff in Hx as [Hx|[<-|[]]].
      * apply lookup_delete_None. right. now apply Ht.
      * apply lookup_delete_eq.
    + unfold finish. destruct (running st !! h); assumption.
    + unfold cancelScheduledJob. destruct (jobs st !! jid) as [j|];
        [|assumption].
      cbn. intros x Hx. apply lookup_delete_None. right. now apply Ht.
Qed.

(** X13.  Whatever is scheduled, fired, ended and cancelled, no timeout
    invokes the campaign runner twice: the handles that have invoked it
    are all different, and none of them is armed again. *)
Theorem runner_invoked_once (history : list action) :
  NoDup (invoked (exec initial history))
  /\ (forall h, In h (invoked (exec initial history)) ->
      timers (exec initial history) !! h = None).
Proof.
  assert (H : forall st, fires_once st -> fires_once (exec st history)).
  { induction history as [|a l IH]; intros st Hst; [exact Hst|].
    cbn. apply IH. now apply fires_once_step. }
  destruct (H initial) as (H1 & H2 & _).
  - split; [constructor|]. split; [intros h []|].
    apply (handles_bounded_reachable []).
  - split; assumption.
Qed.

(** *** Scheduling and cancelling *)

(** X14.  Cancelling a job right after it was scheduled under a new id
    succeeds and puts the registry and the timeouts back as they were;
    only the next handle has moved on. *)
Theorem schedule_then_cancel (st : state) (p : Campaign.params)
  (start now : Z) (new_id : string) :
  handles_bounded st -> jobs st !! new_id = None ->
  let st1 := fst (scheduleOneTimeCampaign st p start now new_id) in
  snd (cancelScheduledJob st1 new_id) = true
  /\ jobs (fst (cancelScheduledJob st1 new_id)) = jobs st
  /\ timers (fst (cancelScheduledJob st1 new_id)) = timers st
  /\ running (fst (cancelScheduledJob st1 new_id)) = running st
  /\ invoked (fst (cancelScheduledJob st1 new_id)) = invoked st
  /\ next_timer (fst (cancelScheduledJob st1 new_id)) = S (next_timer st).
Proof.
  intros (Ht & _ & _) Hj. cbv zeta.
  unfold cancelScheduledJob, scheduleOneTimeCampaign. cbn [fst jobs].
  rewrite lookup_insert_eq. cbn.
  repeat split.
  - rewrite delete_insert_eq. now apply delete_id.
  - rewrite delete_insert_eq. apply delete_id.
    destruct (timers st !! next_timer st) as [c|] eqn:E; [|reflexivity].
    apply Ht in E. lia.
Qed.

Lemma schedule_then_cancel_witness :
  snd (cancelScheduledJob Samples.scheduled Samples.job_id) = true
  /\ jobs (fst (cancelScheduledJob Samples.scheduled Samples.job_id))
     = jobs initial.
Proof.
  destruct (schedule_then_cancel initial (Samples.campaign None) 10000 0
              Samples.job_id (handles_bounded_reachable []) eq_refl)
    as (H1 & H2 & _).
  split; assumption.
Defined.

(** X15.  A job scheduled under a new id waits for a delay that is never
    negative, and is zero for a start time that has passed.  When its
    timeout fires the campaign runner is invoked for it once more, and
    when that run ends the job leaves the registry, after which it can
    no longer be cancelled. *)
Theorem job_life (st : state) (p : Campaign.params) (start now : Z)
  (new_id : string) :
  let h := next_timer st in
  let st1 := fst (scheduleOneTimeCampaign st p start now new_id) in
  snd (scheduleOneTimeCampaign st p start now new_id) = (new_id, start)
  /\ (exists ms, timers st1 !! h = Some (new_id, p, ms)
                 /\ (0 <= ms)%Z /\ ms = Z.max 0 (start - now)
                 /\ ((start <= now)%Z -> ms = 0%Z))
  /\ pending st1 new_id
  /\ invoked (fire st1 h) = invoked st ++ [h]
  /\ jobs (finish (fire st1 h) h) !! new_id = None
  /\ snd (cancelScheduledJob (finish (fire st1 h) h) new_id) = false.
Proof.
  cbv zeta. unfold scheduleOneTimeCampaign. cbn [fst snd].
  split; [reflexivity|]. split; [|split].
  - exists (Z.max 0 (start - now)). cbn [timers].
    rewrite lookup_insert_eq. repeat split; lia.
  - eexists. cbn [jobs timers]. rewrite lookup_insert_eq.
    split; [reflexivity|]. cbn [timer]. rewrite lookup_insert_eq. eauto.
  - unfold fire. cbn [timers]. rewrite lookup_insert_eq. cbn [invoked].
    split; [reflexivity|].
    unfold finish. cbn [running]. rewrite lookup_insert_eq. cbn [jobs].
    split; [apply lookup_delete_eq|].
    unfold cancelScheduledJob. cbn [jobs]. now rewrite lookup_delete_eq.
Qed.

Lemma job_life_witness :
  exists ms,
    timers Samples.scheduled !! 0 = Some (Samples.job_id, Samples.campaign None, ms)
    /\ (0 <= ms)%Z /\ ms = Z.max 0 (10000 - 0)
    /\ ((10000 <= 0)%Z -> ms = 0%Z).
Proof.
  exact (proj1 (proj2 (job_life initial (Samples.campaign None) 10000 0
                         Samples.job_id))).
Defined.

(** *** The registry and the timeouts *)

Lemma consistent_step (st : state) (a : action) :
  consistent st -> consistent (step st a).
Proof.
  intros (Hj & Hr & Hb).
  pose proof (handles_bounded_step st a Hb) as Hb'.
  destruct Hb as (Hbt & Hbj & Hbi).
  split; [|split; [|exact Hb']].
  - destruct a as [p start now new_id|h|h|jid0]; cbn.
    + intros jid j. destruct (decide (new_id = jid)) as [<-|Hne].
      * rewrite lookup_insert_eq. intros [= <-]. left. cbn.
        rewrite lookup_insert_eq. eauto.
      * rewrite lookup_insert_ne by assumption. intros H.
        pose proof (Hbj _ _ H) as Hlt.
        destruct (Hj _ _ H) as [(q & ms & Ht)|Hrun]; [left|now right].
        cbn. rewrite lookup_insert_ne by lia. eauto.
    + unfold fire. destruct (timers st !! h) as [[[jid0 q0] ms0]|] eqn:E;
        [|exact Hj].
      cbn. intros jid j H.
      destruct (Hj _ _ H) as [(q & ms & Ht)|Hrun].
      * destruct (decide (timer j = h)) as [Eh|Hne].
        -- right. cbn. rewrite Eh in Ht. rewrite Ht in E.
           injection E as <- _ _. rewrite Eh. apply lookup_insert_eq.
        -- left. cbn. rewrite lookup_delete_ne by congruence. eauto.
      * right. cbn. destruct (Hr _ _ Hrun) as [Hnone _].
        rewrite lookup_insert_ne by congruence. exact Hrun.
    + unfold finish. destruct (running st !! h) as [jid0|] eqn:E; [|exact Hj].
      cbn. intros jid j H. apply lookup_delete_Some in H as [Hne H].
      destruct (Hj _ _ H) as [Hw|Hrun]; [now left|right].
      cbn. rewrite lookup_delete_ne by congruence. exact Hrun.
    + unfold cancelScheduledJob. destruct (jobs st !! jid0) as [j0|] eqn:E;
        [|exact Hj].
      cbn. intros jid j H. apply lookup_delete_Some in H as [Hne H].
      destruct (Hj _ _ H) as [(q & ms & Ht)|Hrun]; [left|now right].
      cbn. rewrite lookup_delete_ne; [eauto|].
      intros Eh. destruct (Hj _ _ E) as [(q0 & ms0 & Ht0)|Hrun0].
      * rewrite Eh in Ht0. congruence.
      * destruct (Hr _ _ Hrun0) as [Hnone _]. rewrite Eh in Hnone. congruence.
  - destruct a as [p start now new_id|h|h|jid0]; cbn.
    + intros h jid H. destruct (Hr _ _ H) as [Hn Hlt]. split; [|lia].
      now rewrite lookup_insert_ne by lia.
    + unfold fire. destruct (timers st !! h) as [[[jid0 q0] ms0]|] eqn:E;
        [|exact Hr].
      cbn. intros h' jid H. destruct (decide (h = h')) as [<-|Hne].
      * split; [apply lookup_delete_eq|eauto].
      * rewrite lookup_insert_ne in H by assumption.
        destruct (Hr _ _ H) as [Hn Hlt]. split; [|assumption].
        apply lookup_delete_None. now right.
    + unfold finish. destruct (running st !! h) as [jid0|] eqn:E; [|exact Hr].
      cbn. intros h' jid H. apply lookup_delete_Some in H as [_ H]. eauto.
    + unfold cancelScheduledJob. destruct (jobs st !! jid0) as [j0|] eqn:E;
        [|exact Hr].
      cbn. intros h' jid H. destruct (Hr _ _ H) as [Hn Hlt].
      split; [|assumption]. apply lookup_delete_None. now right.
Qed.

(** X16.  Whatever has happened, every job of the registry is either waiting
    for its timeout, which is armed for it, or has its run under way:
    the registry never holds a job whose run has ended. *)
Theorem registry_holds_live_jobs (history : list action) (jid : string)
  (j : job) :
  jobs (exec initial history) !! jid = Some j ->
  waiting_or_running (exec initial history) jid j.
Proof.
  assert (H : forall st, consistent st -> consistent (exec st history)).
  { induction history as [|a l IH]; intros st Hst; [exact Hst|].
    cbn. apply IH. now apply consistent_step. }
  destruct (H initial) as (H1 & _).
  - split; [|split].
    + intros i x. cbn. rewrite lookup_empty. discriminate.
    + intros i x. cbn. rewrite lookup_empty. discriminate.
    + apply (handles_bounded_reachable []).
  - apply H1.
Qed.

Lemma registry_holds_live_jobs_witness :
  waiting_or_running
    (exec initial [Schedule (Samples.campaign None) 10000 0 Samples.job_id;
                   Fire 0])
    Samples.job_id
    {| id := Samples.job_id; startAt := 10000;
       params := Samples.campaign None; timer := 0 |}.
Proof.
  apply registry_holds_live_jobs. vm_compute. reflexivity.
Defined.

End SchedulerMore.

(** ** Template names *)

Module NamingFacts.
Import Js JsFacts Naming.

Lemma replace_runs_chars (b : bool) (s : str) :
  Forall (fun c => is_name_char c = true) (replace_runs b s).
Proof.
  revert b. induction s as [|c s IH]; intros b; [constructor|].
  cbn [replace_runs]. destruct (is_name_char c) eqn:E.
  - apply List.Forall_cons; [exact E|apply IH].
  - destruct b; [apply IH|].
    apply List.Forall_cons; [reflexivity|apply IH].
Qed.

Lemma replace_runs_fixed (b : bool) (s : str) :
  Forall (fun c => is_name_char c = true) s -> replace_runs b s = s.
Proof.
  intros H. revert b. induction H as [|c s Hc Hs IH]; intros b; [reflexivity|].
  cbn [replace_runs]. rewrite Hc. now rewrite IH.
Qed.

Lemma replace_runs_nonempty (s : str) : s <> [] -> replace_runs false s <> [].
Proof.
  destruct s as [|c s]; [congruence|]. intros _. cbn [replace_runs].
  destruct (is_name_char c); discriminate.
Qed.

Lemma Forall_firstn {A} (P : A -> Prop) (n : nat) (l : list A) :
  Forall P l -> Forall P (firstn n l).
Proof.
  intros H. revert n. induction H as [|x l Hx Hl IH]; intros [|n]; cbn;
    constructor; auto.
Qed.

(** X17.  The name made by [sanitizeName] has at most 80 characters, all of
    them letters, digits, [-] or [_]: it holds no path separator and no
    dot, whatever name was given. *)
Theorem sanitizeName_is_safe (name : value) :
  length (sanitizeName name) <= 80
  /\ Forall (fun c => is_name_char c = true) (sanitizeName name)
  /\ ~ In "/" (sanitizeName name)
  /\ ~ In "\" (sanitizeName name)
  /\ ~ In "." (sanitizeName name).
Proof.
  assert (Hc : Forall (fun c => is_name_char c = true) (sanitizeName name))
    by (apply Forall_firstn, replace_runs_chars).
  split; [apply firstn_le_length|]. split; [exact Hc|].
  rewrite List.Forall_forall in Hc.
  repeat split; intros Hin; apply Hc in Hin; discriminate.
Qed.

(** X18.  A name given as a text is left as it is by a second
    [sanitizeName]; the empty name becomes ['template']. *)
Theorem sanitizeName_settles (s : str) :
  sanitizeName (VStr (sanitizeName (VStr s))) = sanitizeName (VStr s)
  /\ sanitizeName (VStr []) = lit "template".
Proof.
  split; [|reflexivity].
  assert (Hne : sanitizeName (VStr s) <> []).
  { unfold sanitizeName. cbn [truthy].
    assert (H : forall t, t <> [] -> firstn 80 (replace_runs false t) <> []).
    { intros t Ht. pose proof (replace_runs_nonempty t Ht) as Hr.
      destruct (replace_runs false t); [congruence|discriminate]. }
    destruct s; apply H; discriminate. }
  remember (sanitizeName (VStr s)) as out eqn:Eo.
  unfold sanitizeName at 1. cbn [truthy].
  destruct out as [|c out]; [congruence|]. cbn [toStr].
  assert (Hc : Forall (fun c => is_name_char c = true) (c :: out))
    by (rewrite Eo; apply Forall_firstn, replace_runs_chars).
  rewrite replace_runs_fixed by assumption.
  apply firstn_all2. rewrite Eo. apply firstn_le_length.
Qed.

End NamingFacts.

(** ** More on the session manager *)

Module SessionFacts.
Import Js Credentials Session.

(** X19.  [ensureServices] throws exactly when there is no client and the
    token or the credentials are not stored, and then changes nothing.
    When it returns, the three handles exist; a service that existed
    keeps the client it was built with, even if [oauth2Client] is
    another one by now; and a further call returns again and changes
    nothing, whatever the store holds then. *)
Theorem ensureServices_keeps_clients (cl : clients) (st st' : stored)
  (fresh fresh' : nat) :
  (snd (ensureServices cl st fresh) = Thrown (lit "Not authenticated")
   <-> oauth2Client cl = None
       /\ (googleToken st = false \/ googleCreds st = false))
  /\ (snd (ensureServices cl st fresh) <> Returned tt ->
      fst (ensureServices cl st fresh) = cl)
  /\ (snd (ensureServices cl st fresh) = Returned tt ->
      is_Some (oauth2Client (fst (ensureServices cl st fresh)))
      /\ is_Some (gmailService (fst (ensureServices cl st fresh)))
      /\ is_Some (sheetsService (fst (ensureServices cl st fresh)))
      /\ (forall g, gmailService cl = Some g ->
          gmailService (fst (ensureServices cl st fresh)) = Some g)
      /\ (forall g, sheetsService cl = Some g ->
          sheetsService (fst (ensureServices cl st fresh)) = Some g)
      /\ ensureServices (fst (ensureServices cl st fresh)) st' fresh'
         = (fst (ensureServices cl st fresh), Returned tt)).
Proof.
  unfold ensureServices.
  destruct cl as [[c|] [g|] [s|]]; destruct st as [[] []]; cbn;
    repeat split; intros; try discriminate; try congruence; eauto;
    intuition (try discriminate; try congruence; eauto).
Qed.

Lemma ensureServices_keeps_clients_witness :
  gmailService
    (fst (ensureServices
            {| oauth2Client := Some 2; gmailService := Some 1;
               sheetsService := None |}
            {| googleToken := true; googleCreds := true |} 3))
  = Some 1.
Proof.
  destruct (ensureServices_keeps_clients
              {| oauth2Client := Some 2; gmailService := Some 1;
                 sheetsService := None |}
              {| googleToken := true; googleCreds := true |}
              {| googleToken := false; googleCreds := false |} 3 4)
    as (_ & _ & H). destruct (H eq_refl) as (_ & _ & _ & Hg & _).
  now apply Hg.
Defined.

(** *** The redirect of normalized credentials *)

(** X20.  For a [web] document the redirect is fixed exactly when one of its
    redirect URIs starts with [http://localhost], and it is then the
    first such URI; no host is recorded.  For an [installed] or flat
    document the redirect is never fixed, and the host recorded is
    [localhost] when some redirect URI starts with [http://localhost]
    and [127.0.0.1] otherwise. *)
Theorem normalized_redirect (doc : document) (sh : shape) (c : creds)
  (n : normalized) :
  has_shape doc sh c ->
  normalizeCredentials (Some doc) = Returned n ->
  match sh with
  | WebShape =>
      host n = None
      /\ match redirect_uri n with
         | Some u =>
             fixed n = true
             /\ exists pre post,
                  redirect_uris c = Some (pre ++ VStr u :: post)
                  /\ is_localhost u = true
                  /\ forall v, In v pre -> other_string v
         | None =>
             fixed n = false
             /\ forall uris v, redirect_uris c = Some uris -> In v uris ->
                               other_string v
         end
  | _ =>
      redirect_uri n = None /\ fixed n = false
      /\ ((exists uris u, redirect_uris c = Some uris /\ In (VStr u) uris
                          /\ is_localhost u = true)
          /\ host n = Some (lit "localhost")
          \/ (forall uris v, redirect_uris c = Some uris -> In v uris ->
                             other_string v)
             /\ host n = Some (lit "127.0.0.1"))
  end.
Proof.
  intros Hsh. unfold normalizeCredentials.
  assert (Hother :
    (if negb (truthy (client_id c)) || negb (truthy (client_secret c))
     then Thrown (lit "Missing client_id/client_secret in credentials")
     else
       match match redirect_uris c with
             | Some uris => some_localhost uris
             | None => Returned false
             end with
       | Thrown e => Thrown e
       | Returned hasLocalhost =>
           Returned
             {| n_client_id := client_id c;
                n_client_secret := client_secret c;
                redirect_uri := None; fixed := false;
                host := Some (if hasLocalhost then lit "localhost"
                              else lit "127.0.0.1") |}
       end)
    = Returned n ->
    redirect_uri n = None /\ fixed n = false
    /\ ((exists uris u, redirect_uris c = Some uris /\ In (VStr u) uris
                        /\ is_localhost u = true)
        /\ host n = Some (lit "localhost")
        \/ (forall uris v, redirect_uris c = Some uris -> In v uris ->
                           other_string v)
           /\ host n = Some (lit "127.0.0.1"))).
  { destruct (negb (truthy (client_id c)) || negb (truthy (client_secret c)));
      [discriminate|].
    destruct (redirect_uris c) as [uris|].
    - pose proof (CredentialsFacts.some_localhost_any uris) as Hs.
      destruct (some_localhost uris) as [[|]|e]; [| |discriminate];
        intros [= <-]; cbn [redirect_uri fixed host];
        (split; [reflexivity|]); (split; [reflexivity|]).
      + left. split; [|reflexivity].
        destruct Hs as (u & Hin & Hu). now exists uris, u.
      + right. split; [|reflexivity]. intros uris' v [= <-] Hv. auto.
    - intros [= <-]. cbn [redirect_uri fixed host].
      split; [reflexivity|]. split; [reflexivity|].
      right. split; [|reflexivity]. discriminate. }
  destruct sh; cbn in Hsh.
  - rewrite Hsh.
    destruct (negb (truthy (client_id c)) || negb (truthy (client_secret c)));
      [discriminate|].
    destruct (redirect_uris c) as [uris|] eqn:Eu.
    + pose proof (CredentialsFacts.find_localhost_first uris) as Hf.
      destruct (find_localhost uris) as [[u|]|e]; [| |discriminate];
        intros [= <-]; cbn [redirect_uri fixed host];
        (split; [reflexivity|]); (split; [reflexivity|]).
      * destruct Hf as (pre & post & -> & Hu & Hpre). now exists pre, post.
      * intros uris' v [= <-] Hv. auto.
    + intros [= <-]. cbn [redirect_uri fixed host].
      split; [reflexivity|]. split; [reflexivity|]. discriminate.
  - destruct Hsh as [Hw Hi]. rewrite Hw, Hi. cbv beta iota zeta.
    exact Hother.
  - destruct Hsh as (Hw & Hi & Hf). rewrite Hw, Hi, Hf. cbv beta iota zeta.
    exact Hother.
Qed.

Lemma normalized_redirect_witness :
  host {| n_client_id := VStr (lit "id-1"); n_client_secret := VStr (lit "s3cret");
          redirect_uri := Some (lit "http://localhost:8080/cb");
          fixed := true; host := None |} = None.
Proof.
  refine (proj1 (normalized_redirect
    {| web := Some {| client_id := VStr (lit "id-1");
                      client_secret := VStr (lit "s3cret");
                      redirect_uris :=
                        Some [VStr (lit "https://example.com/cb");
                              VStr (lit "http://localhost:8080/cb")] |};
       installed := None;
       flat := {| client_id := VUndefined; client_secret := VUndefined;
                  redirect_uris := None |} |}
    WebShape
    {| client_id := VStr (lit "id-1"); client_secret := VStr (lit "s3cret");
       redirect_uris := Some [VStr (lit "https://example.com/cb");
                              VStr (lit "http://localhost:8080/cb")] |}
    _ eq_refl eq_refl)).
Defined.

End SessionFacts.
